(** * Executive Summary Analyzer: extraction merge, report section parser
      and analysis orchestration

    A shallow embedding of the core of [exec-summary-analyzer.py]:
    [LLMAnalyzer._merge_extractions], [LLMAnalyzer._parse_report_sections],
    [LLMAnalyzer.extract_information] and [LLMAnalyzer.generate_report].

    Python values decoded from JSON are modelled by [pyval]; a Python
    exception is a [Raise] in the [result] monad.  A Python [str] is
    modelled as a sequence of code points below 256 (type [string]), on
    which [str.lower], [str.strip], [str.split] and [in] are written out. *)

From Stdlib Require Import QArith Lqa Ascii String.
From stdpp Require Import gmap strings list fin_maps.

Set Warnings "-register-all".
#[local] Open Scope string_scope.

(** ** Exceptions and fallible computations *)

Inductive exn :=
| AttributeError
| TypeError
| KeyError
| JSONDecodeError
| ExternalError (msg : string).

Inductive result (A : Type) :=
| Ok (a : A)
| Raise (e : exn).
Arguments Ok {A} a.
Arguments Raise {A} e.

#[global] Instance result_ret : MRet result := λ A a, Ok a.
#[global] Instance result_bind : MBind result := λ A B f m,
  match m with
  | Ok a => f a
  | Raise e => Raise e
  end.

(** A [for] loop that threads its variables through a fallible body. *)
Fixpoint for_each {A S : Type} (body : S → A → result S) (s : S) (l : list A)
  : result S :=
  match l with
  | [] => Ok s
  | x :: l' => s' ← body s x; for_each body s' l'
  end.

(** ** Python strings *)

Definition newline : string := String (Ascii.ascii_of_nat 10) "".

(** [str.lower] on one code point below 256: A-Z and the upper-case
    letters of Latin-1 (U+00C0-U+00DE except the sign U+00D7). *)
Definition lower_char (a : ascii) : ascii :=
  let n := Ascii.N_of_ascii a in
  if ((65 <=? n) && (n <=? 90) ||
      (192 <=? n) && (n <=? 222) && negb (n =? 215))%N
  then Ascii.ascii_of_N (n + 32)
  else a.

Fixpoint lower (s : string) : string :=
  match s with
  | EmptyString => EmptyString
  | String a s' => String (lower_char a) (lower s')
  end.

(** [sub in s]. *)
Fixpoint str_in (sub s : string) : bool :=
  if String.prefix sub s then true
  else match s with
       | EmptyString => false
       | String _ s' => str_in sub s'
       end.

(** [str.isspace] on one code point below 256. *)
Definition is_whitespace (a : ascii) : bool :=
  let n := Ascii.N_of_ascii a in
  ((9 <=? n) && (n <=? 13) || (28 <=? n) && (n <=? 32) ||
   (n =? 133) || (n =? 160))%N.

Fixpoint lstrip (s : string) : string :=
  match s with
  | EmptyString => EmptyString
  | String a s' => if is_whitespace a then lstrip s' else s
  end.

Definition rstrip (s : string) : string := String.rev (lstrip (String.rev s)).

Definition strip (s : string) : string := rstrip (lstrip s).

(** [s.split('\n')]: never empty, [''.split('\n') == ['']]. *)
Fixpoint split_lines (s : string) : list string :=
  match s with
  | EmptyString => [EmptyString]
  | String a s' =>
      if Ascii.eqb a (Ascii.ascii_of_nat 10) then EmptyString :: split_lines s'
      else match split_lines s' with
           | l :: ls => String a l :: ls
           | [] => [String a EmptyString]
           end
  end.

(** ** Python values, as [json.loads] produces them

    A JSON number (Python [int] or finite [float]) is the rational it
    denotes; comparisons between Python numbers are exact. *)

Inductive pyval :=
| PNone
| PBool (b : bool)
| PNum (q : Q)
| PStr (s : string)
| PList (l : list pyval)
| PDict (d : gmap string pyval).

(** Truth value of an object in a boolean context. *)
Definition py_truthy (v : pyval) : bool :=
  match v with
  | PNone => false
  | PBool b => b
  | PNum q => negb (Qeq_bool q 0)
  | PStr s => negb (String.eqb s "")
  | PList l => negb (Nat.eqb (length l) 0)
  | PDict d => negb (Nat.eqb (size d) 0)
  end.

(** [a or b]. *)
Definition py_or (a b : pyval) : pyval := if py_truthy a then a else b.

(** [obj.get(key, dflt)]: only a dict has the method. *)
Definition py_get (obj : pyval) (key : string) (dflt : pyval) : result pyval :=
  match obj with
  | PDict d => Ok (default dflt (d !! key))
  | _ => Raise AttributeError
  end.

(** [obj.lower()]: only a str has the method. *)
Definition py_lower (obj : pyval) : result string :=
  match obj with
  | PStr s => Ok (lower s)
  | _ => Raise AttributeError
  end.

(** Python numbers: [bool] is a subclass of [int], [True == 1]. *)
Inductive number :=
| NBool (b : bool)
| NRat (q : Q).

Definition number_value (n : number) : Q :=
  match n with
  | NBool true => 1
  | NBool false => 0
  | NRat q => q
  end.

Definition as_number (v : pyval) : option number :=
  match v with
  | PBool b => Some (NBool b)
  | PNum q => Some (NRat q)
  | _ => None
  end.

Definition of_number (n : number) : pyval :=
  match n with
  | NBool b => PBool b
  | NRat q => PNum q
  end.

(** [x > y] on rationals. *)
Definition Qgtb (x y : Q) : bool := negb (Qle_bool x y).

(** ** Extraction Merger: [_merge_extractions] *)

Definition sentinel : string := "Information not provided in the document.".

Definition fields : list string :=
  [ "company_name"; "technology_type"; "need_addressed"; "market_size";
    "market_calculation_method"; "product_development_stage"; "current_sales";
    "exit_value_range"; "years_to_exit"; "investment_needed"; "missing_skills" ].

(** Body of the inner loop [for extraction in extractions], for one
    [field].  [best_confidence] is the int [0] or an accepted confidence;
    a confidence is accepted only after [confidence > best_confidence]
    succeeded against a number, which Python allows for numbers only and
    answers with [TypeError] otherwise. *)
Definition merge_step (field : string) (best : pyval * number)
    (extraction : pyval) : result (pyval * number) :=
  let '(best_value, best_confidence) := best in
  value ← py_get extraction field PNone;
  scores ← py_get extraction "confidence_scores" (PDict ∅);
  confidence ← py_get scores field (PNum (1 # 2));
  if py_truthy value then
    lowered ← py_lower value;
    if negb (str_in "not provided" lowered) then
      match as_number confidence with
      | Some c =>
          if Qgtb (number_value c) (number_value best_confidence)
          then Ok (value, c)
          else Ok best
      | None => Raise TypeError
      end
    else Ok best
  else Ok best.

(** The inner loop, from [best_value = None], [best_confidence = 0]. *)
Definition merge_field (field : string) (extractions : list pyval)
  : result (pyval * number) :=
  for_each (merge_step field) (PNone, NRat 0) extractions.

(** Body of the outer loop [for field in fields], on the two dicts
    [merged] and [confidence_scores]. *)
Definition merge_fields_step (extractions : list pyval)
    (acc : gmap string pyval * gmap string pyval) (field : string)
  : result (gmap string pyval * gmap string pyval) :=
  let '(merged, scores) := acc in
  '(best_value, best_confidence) ← merge_field field extractions;
  Ok (<[field := py_or best_value (PStr sentinel)]> merged,
      <[field := of_number best_confidence]> scores).

Definition _merge_extractions (extractions : list pyval) : result pyval :=
  match extractions with
  | [] => Ok (PDict ∅)
  | [e] => Ok e
  | _ =>
      '(merged, scores) ← for_each (merge_fields_step extractions) (∅, ∅) fields;
      Ok (PDict (<["confidence_scores" := PDict scores]> merged))
  end.

(** ** The dataclass [ExtractedInformation] *)

Record ExtractedInformation := {
  company_name : pyval;
  technology_type : pyval;
  need_addressed : pyval;
  market_size : pyval;
  market_calculation_method : pyval;
  product_development_stage : pyval;
  current_sales : pyval;
  exit_value_range : pyval;
  years_to_exit : pyval;
  investment_needed : pyval;
  missing_skills : pyval;
  extraction_timestamp : string;
  confidence_scores : pyval
}.

(** [__post_init__] on the [confidence_scores] argument. *)
Definition post_init_scores (scores : pyval) : pyval :=
  match scores with
  | PNone => PDict ∅
  | _ => scores
  end.

(** The constructor call that ends [extract_information]: every argument
    is a [merged_info.get(...)]; [now] is the time [__post_init__] reads. *)
Definition new_ExtractedInformation (merged_info : pyval) (now : string)
  : result ExtractedInformation :=
  a1 ← py_get merged_info "company_name" PNone;
  a2 ← py_get merged_info "technology_type" PNone;
  a3 ← py_get merged_info "need_addressed" PNone;
  a4 ← py_get merged_info "market_size" PNone;
  a5 ← py_get merged_info "market_calculation_method" PNone;
  a6 ← py_get merged_info "product_development_stage" PNone;
  a7 ← py_get merged_info "current_sales" PNone;
  a8 ← py_get merged_info "exit_value_range" PNone;
  a9 ← py_get merged_info "years_to_exit" PNone;
  a10 ← py_get merged_info "investment_needed" PNone;
  a11 ← py_get merged_info "missing_skills" PNone;
  scores ← py_get merged_info "confidence_scores" (PDict ∅);
  Ok {| company_name := a1; technology_type := a2; need_addressed := a3;
        market_size := a4; market_calculation_method := a5;
        product_development_stage := a6; current_sales := a7;
        exit_value_range := a8; years_to_exit := a9;
        investment_needed := a10; missing_skills := a11;
        extraction_timestamp := now;
        confidence_scores := post_init_scores scores |}.

(** The tail of [extract_information]: merge, then build the dataclass. *)
Definition merged_information (all_extractions : list pyval) (now : string)
  : result ExtractedInformation :=
  merged_info ← _merge_extractions all_extractions;
  new_ExtractedInformation merged_info now.

(** The eleven fields of an instance by name, as [asdict] lists them. *)
Definition asdict (info : ExtractedInformation) : gmap string pyval :=
  list_to_map
    [ ("company_name", company_name info);
      ("technology_type", technology_type info);
      ("need_addressed", need_addressed info);
      ("market_size", market_size info);
      ("market_calculation_method", market_calculation_method info);
      ("product_development_stage", product_development_stage info);
      ("current_sales", current_sales info);
      ("exit_value_range", exit_value_range info);
      ("years_to_exit", years_to_exit info);
      ("investment_needed", investment_needed info);
      ("missing_skills", missing_skills info) ].

(** ** Extraction results, as a predicate on decoded JSON

    An ExtractionResult is a JSON object in which each of the eleven
    fields is absent, null or a string, and whose confidence map, when
    present, is an object giving numbers to (some of) the fields. *)

Definition is_field_value (o : option pyval) : bool :=
  match o with
  | None | Some PNone | Some (PStr _) => true
  | _ => false
  end.

Definition is_confidence (o : option pyval) : bool :=
  match o with
  | None | Some (PNum _) => true
  | _ => false
  end.

Definition is_extraction_result (e : pyval) : bool :=
  match e with
  | PDict d =>
      forallb (λ f, is_field_value (d !! f)) fields &&
      match d !! "confidence_scores" with
      | None => true
      | Some (PDict c) => forallb (λ f, is_confidence (c !! f)) fields
      | Some _ => false
      end
  | _ => false
  end.

(** The candidate an extraction result offers for a field. *)
Definition candidate_value (e : pyval) (f : string) : option string :=
  match e with
  | PDict d => match d !! f with
               | Some (PStr s) => Some s
               | _ => None
               end
  | _ => None
  end.

(** The confidence entry of an extraction result for a field, if any. *)
Definition confidence_entry (e : pyval) (f : string) : option Q :=
  match e with
  | PDict d => match d !! "confidence_scores" with
               | Some (PDict c) => match c !! f with
                                   | Some (PNum q) => Some q
                                   | _ => None
                                   end
               | _ => None
               end
  | _ => None
  end.

(** The confidence the merge reads: the entry, or 0.5 without one. *)
Definition candidate_confidence (e : pyval) (f : string) : Q :=
  default (1 # 2) (confidence_entry e f).

Definition candidates (f : string) (rs : list pyval) : list (option string * Q) :=
  (λ e, (candidate_value e f, candidate_confidence e f)) <$> rs.

(** The same extraction result with every missing confidence entry of
    the eleven fields written out as [dflt]. *)
Definition fill_scores (dflt : Q) (c : gmap string pyval) : gmap string pyval :=
  foldr (λ f c', match c' !! f with
                 | None => <[f := PNum dflt]> c'
                 | Some _ => c'
                 end) c fields.

Definition fill_confidence (dflt : Q) (e : pyval) : pyval :=
  match e with
  | PDict d =>
      let c := match d !! "confidence_scores" with
               | Some (PDict c) => c
               | _ => ∅
               end in
      PDict (<["confidence_scores" := PDict (fill_scores dflt c)]> d)
  | _ => e
  end.

(** ** The merge rule in the specification's words

    Per field, a fold over the ordered candidates carrying
    (bestValue, bestConfidence), started at (none, 0). *)

Definition acceptable (v : option string) : bool :=
  match v with
  | Some s => negb (String.eqb s "") && negb (str_in "not provided" (lower s))
  | None => false
  end.

Definition accepts (best : option string * Q) (cand : option string * Q) : bool :=
  acceptable cand.1 && Qgtb cand.2 best.2.

Definition scan_step (best cand : option string * Q) : option string * Q :=
  if accepts best cand then cand else best.

Definition scan (cands : list (option string * Q)) : option string * Q :=
  foldl scan_step (None, 0%Q) cands.

Definition resolved_value (cands : list (option string * Q)) : string :=
  default sentinel (scan cands).1.

Definition resolved_confidence (cands : list (option string * Q)) : Q :=
  (scan cands).2.

(** The loop variables [best_value], [best_confidence] that stand for a
    state of the fold. *)
Definition encode (b : option string * Q) : pyval * number :=
  (match b.1 with
   | Some s => PStr s
   | None => PNone
   end, NRat b.2).

(** A dict after [d[k] = val k] for every key [k] of [ks], in order. *)
Definition insert_all {V} (val : string → V) (ks : list string)
    (m : gmap string V) : gmap string V :=
  foldl (λ m k, <[k := val k]> m) m ks.

(** The two dicts the outer loop builds from the fold of the
    specification. *)
Definition merged_of (rs : list pyval) : gmap string pyval :=
  insert_all (λ f, PStr (resolved_value (candidates f rs))) fields ∅.

Definition scores_of (rs : list pyval) : gmap string pyval :=
  insert_all (λ f, PNum (resolved_confidence (candidates f rs))) fields ∅.

(** ** Report Section Parser: [_parse_report_sections] *)

(** [section_mapping], in the order its items are iterated. *)
Definition section_mapping : list (string * string) :=
  [ ("nature and state", "nature_and_state");
    ("market need", "market_need_and_size");
    ("roi", "roi_elements");
    ("management", "management_team_strength") ].

Definition initial_sections : gmap string string :=
  list_to_map
    [ ("nature_and_state", ""); ("market_need_and_size", "");
      ("roi_elements", ""); ("management_team_strength", "") ].

(** The header check: the first key found in the line sets the current
    section and breaks; without a match the pointer keeps its value. *)
Fixpoint find_header (mapping : list (string * string)) (lower_line : string)
    (current_section : option string) : option string :=
  match mapping with
  | [] => current_section
  | (key, section_key) :: rest =>
      if str_in key lower_line then Some section_key
      else find_header rest lower_line current_section
  end.

(** [any(key in lower_line for key in section_mapping)]. *)
Definition any_key (mapping : list (string * string)) (lower_line : string) : bool :=
  existsb (λ kv, str_in kv.1 lower_line) mapping.

(** Body of [for line in lines], on [current_section] and [sections];
    [sections[k] += ...] raises [KeyError] on an absent key. *)
Definition parse_line (st : option string * gmap string string) (line : string)
  : result (option string * gmap string string) :=
  let '(current_section, sections) := st in
  let lower_line := lower line in
  let current_section := find_header section_mapping lower_line current_section in
  match current_section with
  | Some k =>
      if negb (String.eqb k "") && negb (String.eqb (strip line) "") &&
         negb (any_key section_mapping lower_line)
      then match sections !! k with
           | Some text => Ok (current_section, <[k := text +:+ line +:+ newline]> sections)
           | None => Raise KeyError
           end
      else Ok (current_section, sections)
  | None => Ok (current_section, sections)
  end.

Definition parse_lines (st : option string * gmap string string)
    (lines : list string) : result (option string * gmap string string) :=
  for_each parse_line st lines.

Definition _parse_report_sections (report_text : string)
  : result (gmap string string) :=
  st ← parse_lines (None, initial_sections) (split_lines report_text);
  Ok (strip <$> (st : option string * gmap string string).2).

(** ** The parser in the specification's words: a finite-state accumulator *)

Inductive section :=
| NatureAndState
| MarketNeedAndSize
| RoiElements
| ManagementTeamStrength.

Definition section_name (s : section) : string :=
  match s with
  | NatureAndState => "nature_and_state"
  | MarketNeedAndSize => "market_need_and_size"
  | RoiElements => "roi_elements"
  | ManagementTeamStrength => "management_team_strength"
  end.

(** The first trigger, in the fixed priority order, that the lower-cased
    line contains. *)
Definition trigger (line : string) : option section :=
  let l := lower line in
  if str_in "nature and state" l then Some NatureAndState
  else if str_in "market need" l then Some MarketNeedAndSize
  else if str_in "roi" l then Some RoiElements
  else if str_in "management" l then Some ManagementTeamStrength
  else None.

Definition is_blank (line : string) : bool := String.eqb (strip line) "".

Record accumulator := {
  acc_nature : string;
  acc_market : string;
  acc_roi : string;
  acc_management : string
}.

Definition acc_get (a : accumulator) (s : section) : string :=
  match s with
  | NatureAndState => acc_nature a
  | MarketNeedAndSize => acc_market a
  | RoiElements => acc_roi a
  | ManagementTeamStrength => acc_management a
  end.

Definition acc_append (a : accumulator) (s : section) (text : string) : accumulator :=
  match s with
  | NatureAndState =>
      {| acc_nature := acc_nature a +:+ text; acc_market := acc_market a;
         acc_roi := acc_roi a; acc_management := acc_management a |}
  | MarketNeedAndSize =>
      {| acc_nature := acc_nature a; acc_market := acc_market a +:+ text;
         acc_roi := acc_roi a; acc_management := acc_management a |}
  | RoiElements =>
      {| acc_nature := acc_nature a; acc_market := acc_market a;
         acc_roi := acc_roi a +:+ text; acc_management := acc_management a |}
  | ManagementTeamStrength =>
      {| acc_nature := acc_nature a; acc_market := acc_market a;
         acc_roi := acc_roi a; acc_management := acc_management a +:+ text |}
  end.

Definition empty_accumulator : accumulator :=
  {| acc_nature := ""; acc_market := ""; acc_roi := ""; acc_management := "" |}.

(** One transition: a trigger line moves the pointer and is not stored;
    another non-blank line is appended, with a newline, to the section
    the pointer designates, if any. *)
Definition automaton_step (st : option section * accumulator) (line : string)
  : option section * accumulator :=
  match trigger line with
  | Some s => (Some s, st.2)
  | None =>
      match st.1 with
      | Some cur =>
          if is_blank line then st
          else (st.1, acc_append st.2 cur (line +:+ newline))
      | None => st
      end
  end.

Definition automaton_run (st : option section * accumulator) (lines : list string)
  : option section * accumulator :=
  foldl automaton_step st lines.

Definition sections_of (a : accumulator) : gmap string string :=
  list_to_map
    [ ("nature_and_state", acc_nature a); ("market_need_and_size", acc_market a);
      ("roi_elements", acc_roi a); ("management_team_strength", acc_management a) ].

Definition trim_all (a : accumulator) : accumulator :=
  {| acc_nature := strip (acc_nature a); acc_market := strip (acc_market a);
     acc_roi := strip (acc_roi a); acc_management := strip (acc_management a) |}.

Definition automaton_parse (report_text : string) : gmap string string :=
  sections_of
    (trim_all (automaton_run (None, empty_accumulator) (split_lines report_text)).2).


(** The state of the loop that stands for a state of the automaton. *)
Definition loop_state (st : option section * accumulator)
  : option string * gmap string string :=
  (section_name <$> st.1, sections_of st.2).

(** The report of the specification's example, and one in which a body
    line of the ROI section mentions management. *)
Definition sample_report : string :=
  "Nature and State" +:+ newline +:+ "Growing fast" +:+ newline +:+ newline
  +:+ "ROI" +:+ newline +:+ "High return" +:+ newline.



(** ** Analysis Orchestrator: [extract_information], [generate_report]

    The external collaborators are a record of functions.  The language
    model is stateful: a call takes the current [World] and returns the
    next.  Calls are recorded, in order, in [calls].  [logger.error]
    has no effect on values and is left out. *)

Inductive message :=
| SystemMessage (content : string)
| HumanMessage (content : string).

Record Collaborators (World : Type) := {
  (** [RecursiveCharacterTextSplitter(2000, 200).split_text] *)
  split_text : string → list string;
  (** [self.llm.invoke(messages).content], or the exception it raises *)
  llm_invoke : list message → World → result string * World;
  (** [json.loads] *)
  json_loads : string → result pyval;
  (** [datetime.now().isoformat()] *)
  now_isoformat : World → string;
  (** [str()] of a value inside an f-string *)
  py_str : pyval → string;
  (** the two fixed prompt texts; no control flow depends on them *)
  extraction_prompt : string;
  report_prompt : string
}.
Arguments split_text {World} _ _.
Arguments llm_invoke {World} _ _ _.
Arguments json_loads {World} _ _.
Arguments now_isoformat {World} _ _.
Arguments py_str {World} _ _.
Arguments extraction_prompt {World} _.
Arguments report_prompt {World} _.

Record state (World : Type) := {
  world : World;
  calls : list (list message)
}.
Arguments world {World} _.
Arguments calls {World} _.

(** Computations that read and change the state and may raise. *)
Definition M (World A : Type) : Type := state World → result A * state World.

#[global] Instance M_ret {World} : MRet (M World) := λ A a s, (Ok a, s).
#[global] Instance M_bind {World} : MBind (M World) := λ A B f m s,
  match m s with
  | (Ok a, s') => f a s'
  | (Raise e, s') => (Raise e, s')
  end.

Definition lift {World A} (r : result A) : M World A := λ s, (r, s).

Definition raise {World A} (e : exn) : M World A := λ s, (Raise e, s).

(** [try: body except Exception as e: handler(e)]. *)
Definition try_except {World A} (body : M World A) (handler : exn → M World A)
  : M World A :=
  λ s, match body s with
       | (Ok a, s') => (Ok a, s')
       | (Raise e, s') => handler e s'
       end.

Fixpoint for_each_M {World A S : Type} (body : S → A → M World S) (s : S)
    (l : list A) : M World S :=
  match l with
  | [] => mret s
  | x :: l' => s' ← body s x; for_each_M body s' l'
  end.

(** The dataclass [Report]; [metadata] holds the three keys the source
    writes. *)
Record Metadata := {
  md_company_name : pyval;
  md_extraction_timestamp : string;
  md_confidence_scores : pyval
}.

Record Report := {
  nature_and_state : string;
  market_need_and_size : string;
  roi_elements : string;
  management_team_strength : string;
  metadata : Metadata
}.

Section Orchestrator.
Context {World : Type} (env : Collaborators World).

Definition invoke (messages : list message) : M World string :=
  λ s, let '(r, w) := llm_invoke env messages (world s) in
       (r, {| world := w; calls := (calls s ++ [messages])%list |}).

Definition read_clock : M World string :=
  λ s, (Ok (now_isoformat env (world s)), s).

Definition extraction_messages (chunk : string) : list message :=
  [ SystemMessage (extraction_prompt env);
    HumanMessage ("Executive Summary:" +:+ newline +:+ chunk) ].

(** Body of [for chunk in chunks[:3]], on [all_extractions]. *)
Definition extract_chunk (all_extractions : list pyval) (chunk : string)
  : M World (list pyval) :=
  try_except
    (response ← invoke (extraction_messages chunk);
     decoded ← lift (json_loads env response);
     mret (all_extractions ++ [decoded])%list)
    (λ _, mret all_extractions).

Definition extract_information (text : string) : M World ExtractedInformation :=
  let chunks := split_text env text in
  all_extractions ← for_each_M extract_chunk [] (take 3 chunks);
  merged_info ← lift (_merge_extractions all_extractions);
  now ← read_clock;
  lift (new_ExtractedInformation merged_info now).

Definition info_line (label : string) (v : pyval) : string :=
  "        " +:+ label +:+ ": " +:+ py_str env v +:+ newline.

Definition info_text (info : ExtractedInformation) : string :=
  newline
  +:+ info_line "Company" (company_name info)
  +:+ info_line "Technology Type" (technology_type info)
  +:+ info_line "Need Addressed" (need_addressed info)
  +:+ info_line "Market Size" (market_size info)
  +:+ info_line "Market Calculation" (market_calculation_method info)
  +:+ info_line "Development Stage" (product_development_stage info)
  +:+ info_line "Current Sales" (current_sales info)
  +:+ info_line "Exit Value" (exit_value_range info)
  +:+ info_line "Years to Exit" (years_to_exit info)
  +:+ info_line "Investment Needed" (investment_needed info)
  +:+ info_line "Missing Skills" (missing_skills info)
  +:+ "        ".

Definition report_messages (info : ExtractedInformation) : list message :=
  [ SystemMessage (report_prompt env); HumanMessage (info_text info) ].

Definition new_Report (sections : gmap string string)
    (info : ExtractedInformation) : Report :=
  {| nature_and_state := default "" (sections !! "nature_and_state");
     market_need_and_size := default "" (sections !! "market_need_and_size");
     roi_elements := default "" (sections !! "roi_elements");
     management_team_strength :=
       default "" (sections !! "management_team_strength");
     metadata :=
       {| md_company_name := company_name info;
          md_extraction_timestamp := extraction_timestamp info;
          md_confidence_scores := confidence_scores info |} |}.

Definition generate_report (info : ExtractedInformation) : M World Report :=
  try_except
    (response ← invoke (report_messages info);
     sections ← lift (_parse_report_sections response);
     mret (new_Report sections info))
    (λ e, raise e).

(** The analysis of one request: the two calls of [analyze_document]
    on the analyzer. *)
Definition analyze (text : string) : M World (ExtractedInformation * Report) :=
  extracted_info ← extract_information text;
  report ← generate_report extracted_info;
  mret (extracted_info, report).

End Orchestrator.

(** ** Sample inputs *)

Definition one_field (f v : string) : gmap string pyval := {[ f := PStr v ]}.

Definition with_confidence (f : string) (q : Q) (d : gmap string pyval)
  : gmap string pyval :=
  <["confidence_scores" := PDict {[ f := PNum q ]}]> d.

(** Company name "Acme" at confidence 0.3, "Bolt" at 0.9. *)
Definition acme_low : pyval :=
  PDict (with_confidence "company_name" (3 # 10) (one_field "company_name" "Acme")).
Definition bolt_high : pyval :=
  PDict (with_confidence "company_name" (9 # 10) (one_field "company_name" "Bolt")).

(** Two results with equal confidence 0.5 for the company name. *)
Definition acme_half : pyval :=
  PDict (with_confidence "company_name" (1 # 2) (one_field "company_name" "Acme")).
Definition bolt_half : pyval :=
  PDict (with_confidence "company_name" (1 # 2) (one_field "company_name" "Bolt")).

(** Results without a confidence map. *)
Definition acme_bare : pyval := PDict (one_field "company_name" "Acme").
Definition empty_result : pyval := PDict ∅.

(** The value a merge returned for a key, if it returned a dict. *)
Definition returned (r : result pyval) (key : string) : option pyval :=
  match r with
  | Ok (PDict m) => m !! key
  | _ => None
  end.

(** An instance with every field [None] and an empty confidence map. *)
Definition blank_information (now : string) : ExtractedInformation :=
  {| company_name := PNone; technology_type := PNone; need_addressed := PNone;
     market_size := PNone; market_calculation_method := PNone;
     product_development_stage := PNone; current_sales := PNone;
     exit_value_range := PNone; years_to_exit := PNone;
     investment_needed := PNone; missing_skills := PNone;
     extraction_timestamp := now; confidence_scores := PDict ∅ |}.

(** The confidence an instance records for a field. *)
Definition recorded_confidence (info : ExtractedInformation) (f : string)
  : option pyval :=
  match confidence_scores info with
  | PDict c => c !! f
  | _ => None
  end.

(** Collaborators for one request: the splitter returns the text as a
    single chunk; the language model answers every call, the extraction
    call included, with the text [[]], which [json.loads] decodes to the
    empty list; no call raises. *)
Definition list_reply_env : Collaborators unit :=
  {| split_text := λ text, [text];
     llm_invoke := λ _ w, (Ok "[]", w);
     json_loads := λ s, if String.eqb s "[]" then Ok (PList []) else Raise JSONDecodeError;
     now_isoformat := λ _, "2024-01-01T00:00:00";
     py_str := λ _, "";
     extraction_prompt := "";
     report_prompt := "" |}.

Definition initial_state : state unit := {| world := tt; calls := [] |}.

(** Whether a decoded value is a JSON object. *)
Definition is_dict (v : pyval) : bool :=
  match v with
  | PDict _ => true
  | _ => false
  end.

(** Strings made of whitespace only, and strings that hold a character. *)
Fixpoint all_whitespace (s : string) : bool :=
  match s with
  | EmptyString => true
  | String a s' => is_whitespace a && all_whitespace s'
  end.

Fixpoint has_char (c : ascii) (s : string) : bool :=
  match s with
  | EmptyString => false
  | String a s' => Ascii.eqb a c || has_char c s'
  end.

(** The section names, and what the loop keeps true of the text of a
    section: it holds no trigger in any letter case and is empty or ends
    with a newline. *)
Definition section_names : list string :=
  [ "nature_and_state"; "market_need_and_size"; "roi_elements";
    "management_team_strength" ].

Definition free_of_triggers (text : string) : Prop :=
  Forall (λ kv : string * string, str_in kv.1 (lower text) = false) section_mapping.

Definition tidy (text : string) : Prop :=
  free_of_triggers text ∧ (text = "" ∨ ∃ text0, text = text0 +:+ newline).

#[global] Instance section_eq_dec : EqDecision section.
Proof. solve_decision. Defined.

(** ** [allowed_file] *)

(** [s.rsplit(sep, 1)] for a separator of one character: the text before
    and after the last [sep], or [s] alone when it holds none. *)
Fixpoint rsplit_last (sep : ascii) (s : string) : option (string * string) :=
  match s with
  | EmptyString => None
  | String a s' =>
      match rsplit_last sep s' with
      | Some (h, t) => Some (String a h, t)
      | None => if Ascii.eqb a sep then Some (EmptyString, s') else None
      end
  end.

Definition rsplit1 (sep : ascii) (s : string) : list string :=
  match rsplit_last sep s with
  | Some (h, t) => [h; t]
  | None => [s]
  end.

Definition ALLOWED_EXTENSIONS : gset string := {[ "pdf" ]}.

(** [None] stands for the [IndexError] of [...[1]]. *)
Definition allowed_file (filename : string) : option bool :=
  if str_in "." filename then
    ext ← rsplit1 "."%char filename !! 1%nat;
    Some (bool_decide (lower ext ∈ ALLOWED_EXTENSIONS))
  else Some false.

(** ** [PDFProcessor.extract_text]

    What a run of a PDF library shows to the caller: page after page the
    value [page.extract_text()] returned (a text or [None]), or an
    exception, raised by the library on opening the file, on a page or
    on closing, which ends the run. *)
Inductive page_event :=
| PageText (t : option string)
| PageFailure.

(** The first [try] block: pdfplumber.  An exception is logged and the
    text read so far is kept. *)
Fixpoint plumber_text (text : string) (run : list page_event) : string :=
  match run with
  | [] => text
  | PageText (Some page_text) :: rest =>
      if negb (String.eqb page_text "")
      then plumber_text (text +:+ page_text +:+ newline) rest
      else plumber_text text rest
  | PageText None :: rest => plumber_text text rest
  | PageFailure :: _ => text
  end.

(** The second [try] block: PyPDF2.  [None] stands for an exception in
    the block; [None + "\n"] is a [TypeError]. *)
Fixpoint pypdf2_text (text : string) (run : list page_event) : option string :=
  match run with
  | [] => Some text
  | PageText (Some page_text) :: rest =>
      pypdf2_text (text +:+ page_text +:+ newline) rest
  | PageText None :: _ => None
  | PageFailure :: _ => None
  end.

(** [None] stands for [ValueError("Unable to extract text from PDF")]. *)
Definition extract_text (plumber pypdf2 : list page_event) : option string :=
  let text := plumber_text "" plumber in
  if String.eqb (strip text) "" then
    text ← pypdf2_text text pypdf2;
    Some (strip text)
  else Some (strip text).

Definition is_page_text (ev : page_event) : bool :=
  match ev with
  | PageText _ => true
  | PageFailure => false
  end.

(** Collaborators whose language model raises on every call, and
    collaborators whose model always answers with an empty JSON object. *)
Definition failing_llm_env : Collaborators unit :=
  {| split_text := λ text, [text; text];
     llm_invoke := λ _ w, (Raise (ExternalError "timeout"), w);
     json_loads := λ _, Raise JSONDecodeError;
     now_isoformat := λ _, "2024-01-01T00:00:00";
     py_str := λ _, "";
     extraction_prompt := "";
     report_prompt := "" |}.

Definition empty_object_env : Collaborators unit :=
  {| split_text := λ text, [text; text];
     llm_invoke := λ _ w, (Ok "{}", w);
     json_loads := λ s, if String.eqb s "{}" then Ok empty_result
                        else Raise JSONDecodeError;
     now_isoformat := λ _, "2024-01-01T00:00:00";
     py_str := λ _, "";
     extraction_prompt := "";
     report_prompt := "" |}.

(** Collaborators with a call counter as world: the model answers the
    first two calls with an empty JSON object and raises from the third
    call on. *)
Definition third_call_fails_env : Collaborators nat :=
  {| split_text := λ text, [text; text];
     llm_invoke := λ _ n,
       (if (n <? 2)%nat then Ok "{}" else Raise (ExternalError "timeout"), S n);
     json_loads := λ s, if String.eqb s "{}" then Ok empty_result
                        else Raise JSONDecodeError;
     now_isoformat := λ _, "2024-01-01T00:00:00";
     py_str := λ _, "";
     extraction_prompt := "";
     report_prompt := "" |}.

Definition first_call : state nat := {| world := 0%nat; calls := [] |}.

(** * Facts *)

(** ** Loops *)

Lemma for_each_app {A S} (body : S → A → result S) (s : S) (l1 l2 : list A) :
  for_each body s (l1 ++ l2)%list = s' ← for_each body s l1; for_each body s' l2.
Proof.
  revert s. induction l1 as [|x l1 IH]; intros s; simpl; [done|].
  destruct (body s x) as [s'|e]; simpl; [apply IH | done].
Qed.

Lemma for_each_cons_ok {A S} (body : S → A → result S) (s s' : S) (x : A)
    (l : list A) :
  body s x = Ok s' → for_each body s (x :: l) = for_each body s' l.
Proof. intros H. simpl. by rewrite H. Qed.

(** A loop whose body always succeeds is a left fold. *)
Lemma for_each_foldl {A S T} (body : S → A → result S) (step : T → A → T)
    (enc : T → S) (P : A → Prop) (l : list A) (t : T) :
  (∀ t x, P x → body (enc t) x = Ok (enc (step t x))) →
  Forall P l →
  for_each body (enc t) l = Ok (enc (foldl step t l)).
Proof.
  intros Hstep Hl. revert t.
  induction Hl as [|x l Hx _ IH]; intros t; simpl; [done|].
  rewrite (Hstep t x Hx). simpl. apply IH.
Qed.

(** ** Rational comparisons *)

Lemma Qgtb_true (x y : Q) : Qgtb x y = true ↔ (y < x)%Q.
Proof.
  unfold Qgtb. rewrite negb_true_iff.
  split.
  - intros H. apply Qnot_le_lt. intros Hle.
    apply Qle_bool_iff in Hle. congruence.
  - intros H. destruct (Qle_bool x y) eqn:E; [|done].
    apply Qle_bool_iff in E. exfalso. exact (Qlt_not_le _ _ H E).
Qed.

Lemma Qgtb_false (x y : Q) : Qgtb x y = false ↔ (x <= y)%Q.
Proof.
  unfold Qgtb. rewrite negb_false_iff. apply Qle_bool_iff.
Qed.

(** ** The merge rule: what the fold of the specification computes *)

Lemma scan_snoc (cands : list (option string * Q)) (c : option string * Q) :
  scan (cands ++ [c])%list = scan_step (scan cands) c.
Proof. unfold scan. by rewrite foldl_app. Qed.

(** The state of the fold is the start state, with no acceptable
    candidate above confidence 0 seen, or an accepted candidate that no
    acceptable candidate exceeds. *)
Lemma scan_characterised (cands : list (option string * Q)) :
  (scan cands = (None, 0%Q) ∧
   ∀ c, c ∈ cands → acceptable c.1 = true → (c.2 <= 0)%Q)
  ∨ (∃ v q, scan cands = (Some v, q) ∧ (Some v, q) ∈ cands ∧
            acceptable (Some v) = true ∧ (0 < q)%Q ∧
            ∀ c, c ∈ cands → acceptable c.1 = true → (c.2 <= q)%Q).
Proof.
  induction cands as [|c cands IH] using rev_ind.
  - left. split; [done|]. intros c Hc. by apply elem_of_nil in Hc.
  - rewrite scan_snoc. unfold scan_step, accepts.
    destruct (acceptable c.1) eqn:Hacc; simpl.
    + destruct (Qgtb c.2 (scan cands).2) eqn:Hgt.
      * apply Qgtb_true in Hgt. right.
        destruct c as [[v|] q]; [|done]. simpl in *.
        exists v, q. split; [done|].
        split; [apply elem_of_app; right; by apply list_elem_of_singleton|].
        split; [done|].
        destruct IH as [[Hs Hall]|(v' & q' & Hs & _ & _ & Hpos & Hall)];
          rewrite Hs in Hgt; simpl in Hgt.
        -- split; [done|]. intros c [Hc| ->%list_elem_of_singleton]%elem_of_app Ha.
           ++ specialize (Hall c Hc Ha). lra.
           ++ simpl. lra.
        -- split; [lra|]. intros c [Hc| ->%list_elem_of_singleton]%elem_of_app Ha.
           ++ specialize (Hall c Hc Ha). lra.
           ++ simpl. lra.
      * apply Qgtb_false in Hgt.
        destruct IH as [[Hs Hall]|(v' & q' & Hs & Hin & Ha' & Hpos & Hall)];
          rewrite Hs in Hgt |- *; simpl in Hgt.
        -- left. split; [done|].
           intros c' [Hc| ->%list_elem_of_singleton]%elem_of_app Ha; auto.
        -- right. exists v', q'. split; [done|].
           split; [apply elem_of_app; by left|].
           split; [done|]. split; [done|].
           intros c' [Hc| ->%list_elem_of_singleton]%elem_of_app Ha; auto.
    + destruct IH as [[Hs Hall]|(v' & q' & Hs & Hin & Ha' & Hpos & Hall)].
      * left. split; [done|].
        intros c' [Hc| ->%list_elem_of_singleton]%elem_of_app Ha; [auto|congruence].
      * right. exists v', q'. split; [done|].
           split; [apply elem_of_app; by left|].
        split; [done|]. split; [done|].
        intros c' [Hc| ->%list_elem_of_singleton]%elem_of_app Ha; [auto|congruence].
Qed.

(** A value held by the fold is an accepted one, hence not empty. *)
Lemma scan_value_acceptable (cands : list (option string * Q)) (v : string) :
  (scan cands).1 = Some v → acceptable (Some v) = true.
Proof.
  intros Hv.
  destruct (scan_characterised cands) as [[Hs _]|(v' & q' & Hs & _ & Ha & _)];
    rewrite Hs in Hv; simpl in Hv; congruence.
Qed.

(** ** The merge loop on extraction results *)

Lemma field_not_scores (f : string) : f ∈ fields → f ≠ "confidence_scores".
Proof.
  intros Hf ->. apply list_elem_of_In in Hf. simpl in Hf.
  intuition discriminate.
Qed.

Lemma result_field_value (d : gmap string pyval) (f : string) :
  is_extraction_result (PDict d) = true → f ∈ fields →
  is_field_value (d !! f) = true.
Proof.
  intros [Hv _]%andb_prop Hf.
  rewrite forallb_forall in Hv. apply Hv. by apply list_elem_of_In.
Qed.

Lemma result_confidence (d : gmap string pyval) (f : string) :
  is_extraction_result (PDict d) = true → f ∈ fields →
  d !! "confidence_scores" = None
  ∨ ∃ c, d !! "confidence_scores" = Some (PDict c) ∧ is_confidence (c !! f) = true.
Proof.
  intros [_ Hc]%andb_prop Hf.
  destruct (d !! "confidence_scores") as [[| | | | |c]|]; try done; [|by left].
  right. exists c. split; [done|].
  rewrite forallb_forall in Hc. apply Hc. by apply list_elem_of_In.
Qed.

(** On an extraction result the loop body is one step of the fold. *)
Lemma merge_step_scan (f : string) (e : pyval) (b : option string * Q) :
  is_extraction_result e = true → f ∈ fields →
  merge_step f (encode b) e
  = Ok (encode (scan_step b (candidate_value e f, candidate_confidence e f))).
Proof.
  intros Hwf Hf. destruct e as [| | | | |d]; try done.
  pose proof (result_field_value d f Hwf Hf) as Hv.
  unfold merge_step, encode, scan_step, accepts, acceptable,
    candidate_confidence, confidence_entry, candidate_value.
  simpl.
  destruct (result_confidence d f Hwf Hf) as [->|(c & -> & Hc)]; simpl.
  - rewrite lookup_empty. simpl.
    destruct (d !! f) as [[| | |s| |]|]; try done; simpl.
    destruct (String.eqb s ""); simpl; [done|].
    destruct (str_in "not provided" (lower s)); simpl; [done|].
    by destruct (Qgtb _ _).
  - destruct (c !! f) as [[]|]; try done; simpl;
      (destruct (d !! f) as [[| | |s| |]|]; try done; simpl;
       destruct (String.eqb s ""); simpl; [done|];
       destruct (str_in "not provided" (lower s)); simpl; [done|];
       by destruct (Qgtb _ _)).
Qed.

(** The inner loop computes the fold of the specification. *)
Lemma merge_field_scan (f : string) (rs : list pyval) :
  Forall (λ e, is_extraction_result e = true) rs → f ∈ fields →
  merge_field f rs = Ok (encode (scan (candidates f rs))).
Proof.
  intros Hrs Hf. unfold merge_field, scan, candidates.
  rewrite foldl_fmap.
  apply (for_each_foldl (merge_step f)
           (λ b e, scan_step b (candidate_value e f, candidate_confidence e f))
           encode (λ e, is_extraction_result e = true) rs (None, 0%Q));
    [|done].
  intros b e He. by apply merge_step_scan.
Qed.

Lemma py_or_encode (cands : list (option string * Q)) :
  py_or (encode (scan cands)).1 (PStr sentinel) = PStr (resolved_value cands).
Proof.
  unfold resolved_value, encode, py_or. simpl.
  destruct (scan cands).1 as [v|] eqn:Hv; simpl; [|done].
  apply scan_value_acceptable in Hv. simpl in Hv.
  apply andb_prop in Hv as [Hne _]. by rewrite Hne.
Qed.

Lemma insert_all_lookup {V} (val : string → V) (ks : list string)
    (m : gmap string V) (k : string) :
  insert_all val ks m !! k = if decide (k ∈ ks) then Some (val k) else m !! k.
Proof.
  unfold insert_all. revert m.
  induction ks as [|a ks IH]; intros m; cbn [foldl].
  - case_decide as H; [by apply elem_of_nil in H | done].
  - rewrite IH. repeat case_decide; try done.
    + exfalso. auto using list_elem_of_further.
    + apply elem_of_cons in H0 as [->|?]; [|done]. apply lookup_insert_eq.
    + apply lookup_insert_ne. intros ->. auto using list_elem_of_here.
Qed.

(** The outer loop on extraction results. *)
Lemma merge_fields_scan (rs : list pyval) (fs : list string)
    (m sc : gmap string pyval) :
  Forall (λ e, is_extraction_result e = true) rs →
  Forall (λ f, f ∈ fields) fs →
  for_each (merge_fields_step rs) (m, sc) fs
  = Ok (insert_all (λ f, PStr (resolved_value (candidates f rs))) fs m,
        insert_all (λ f, PNum (resolved_confidence (candidates f rs))) fs sc).
Proof.
  intros Hrs Hfs. revert m sc.
  induction Hfs as [|f fs Hf _ IH]; intros m sc; simpl; [done|].
  rewrite (merge_field_scan f rs Hrs Hf). simpl.
  pose proof (py_or_encode (candidates f rs)) as Hor. simpl in Hor.
  rewrite Hor. apply IH.
Qed.

Lemma fields_in_fields : Forall (λ f, f ∈ fields) fields.
Proof. apply Forall_forall. auto. Qed.

(** Two or more extraction results: the merge returns the dicts of the
    fold. *)
Lemma merge_extractions_scan (rs : list pyval) :
  Forall (λ e, is_extraction_result e = true) rs → (2 ≤ length rs)%nat →
  _merge_extractions rs
  = Ok (PDict (<["confidence_scores" := PDict (scores_of rs)]> (merged_of rs))).
Proof.
  intros Hrs Hlen.
  destruct rs as [|e1 [|e2 rest]]; simpl in Hlen; [lia|lia|].
  unfold _merge_extractions.
  by rewrite (merge_fields_scan _ fields ∅ ∅ Hrs fields_in_fields).
Qed.

Lemma merged_of_lookup (rs : list pyval) (f : string) :
  f ∈ fields → merged_of rs !! f = Some (PStr (resolved_value (candidates f rs))).
Proof.
  intros Hf. unfold merged_of. rewrite insert_all_lookup. by rewrite decide_True.
Qed.

Lemma scores_of_lookup (rs : list pyval) (f : string) :
  f ∈ fields →
  scores_of rs !! f = Some (PNum (resolved_confidence (candidates f rs))).
Proof.
  intros Hf. unfold scores_of. rewrite insert_all_lookup. by rewrite decide_True.
Qed.

(** C1. For two or more extraction results the merge resolves each of
    the eleven fields, independently, by the fold of the specification:
    the candidates are scanned in order, a candidate is accepted exactly
    when it is non-empty, does not contain "not provided" in any letter
    case and its confidence is strictly above the best accepted so far
    (0 at the start).  The merged field and its confidence are those of
    an accepted candidate that no acceptable candidate exceeds; when no
    candidate is accepted they are the sentinel and 0. *)
Theorem merge_selects_highest_confidence (rs : list pyval) :
  Forall (λ e, is_extraction_result e = true) rs →
  (2 ≤ length rs)%nat →
  ∃ merged scores : gmap string pyval,
    _merge_extractions rs
    = Ok (PDict (<["confidence_scores" := PDict scores]> merged)) ∧
    ∀ f, f ∈ fields →
      let cands := candidates f rs in
      merged !! f = Some (PStr (resolved_value cands)) ∧
      scores !! f = Some (PNum (resolved_confidence cands)) ∧
      ((resolved_value cands = sentinel ∧ resolved_confidence cands = 0%Q ∧
        ∀ c, c ∈ cands → acceptable c.1 = true → (c.2 <= 0)%Q)
       ∨ (∃ v q, (Some v, q) ∈ cands ∧ acceptable (Some v) = true ∧ (0 < q)%Q ∧
                 resolved_value cands = v ∧ resolved_confidence cands = q ∧
                 ∀ c, c ∈ cands → acceptable c.1 = true → (c.2 <= q)%Q)).
Proof.
  intros Hrs Hlen. exists (merged_of rs), (scores_of rs).
  split; [by apply merge_extractions_scan|].
  intros f Hf cands.
  split; [by apply merged_of_lookup|]. split; [by apply scores_of_lookup|].
  unfold resolved_value, resolved_confidence.
  destruct (scan_characterised cands)
    as [[Hs Hall]|(v & q & Hs & Hin & Ha & Hpos & Hall)]; rewrite Hs; simpl.
  - by left.
  - right. by exists v, q.
Qed.

Lemma merge_selects_highest_confidence_witness :
  Forall (λ e, is_extraction_result e = true) [acme_low; bolt_high] ∧
  (2 ≤ length [acme_low; bolt_high])%nat ∧
  ∃ merged scores : gmap string pyval,
    _merge_extractions [acme_low; bolt_high]
    = Ok (PDict (<["confidence_scores" := PDict scores]> merged)) ∧
    merged !! "company_name" = Some (PStr "Bolt") ∧
    scores !! "company_name" = Some (PNum (9 # 10)).
Proof.
  assert (H1 : Forall (λ e, is_extraction_result e = true) [acme_low; bolt_high])
    by (repeat constructor).
  assert (H2 : (2 ≤ length [acme_low; bolt_high])%nat) by (simpl; lia).
  split; [exact H1|]. split; [exact H2|].
  destruct (merge_selects_highest_confidence _ H1 H2) as (m & sc & Hm & Hf).
  exists m, sc. split; [exact Hm|].
  destruct (Hf "company_name") as (Hv & Hc & _).
  - apply list_elem_of_here.
  - split; [exact Hv | exact Hc].
Defined.

(** ** Ties *)

(** No later candidate replaces a best that it does not strictly exceed. *)
Lemma scan_keeps_best (b : option string * Q) (cands : list (option string * Q)) :
  (∀ c, c ∈ cands → acceptable c.1 = true → (c.2 <= b.2)%Q) →
  foldl scan_step b cands = b.
Proof.
  induction cands as [|c cands IH]; intros Hall; simpl; [done|].
  assert (scan_step b c = b) as ->.
  { unfold scan_step, accepts.
    destruct (acceptable c.1) eqn:Ha; simpl; [|done].
    assert (Qgtb c.2 b.2 = false) as ->; [|done].
    apply Qgtb_false, Hall; [apply list_elem_of_here | done]. }
  apply IH. intros c' Hc'. apply Hall. by apply list_elem_of_further.
Qed.

(** The first candidate of highest confidence is the one the fold ends
    with. *)
Lemma scan_first_of_highest (pre post : list (option string * Q))
    (v : string) (q : Q) :
  acceptable (Some v) = true → (0 < q)%Q →
  (∀ c, c ∈ pre → acceptable c.1 = true → (c.2 < q)%Q) →
  (∀ c, c ∈ post → acceptable c.1 = true → (c.2 <= q)%Q) →
  scan (pre ++ (Some v, q) :: post)%list = (Some v, q).
Proof.
  intros Ha Hpos Hpre Hpost. unfold scan.
  rewrite foldl_app. simpl. fold (scan pre).
  assert (scan_step (scan pre) (Some v, q) = (Some v, q)) as ->.
  { unfold scan_step, accepts. simpl fst. simpl snd. rewrite Ha. simpl.
    assert (Qgtb q (scan pre).2 = true) as ->; [|done].
    apply Qgtb_true.
    destruct (scan_characterised pre)
      as [[Hs _]|(v' & q' & Hs & Hin & Ha' & _)]; rewrite Hs; simpl; [done|].
    by apply (Hpre (Some v', q')). }
  by apply scan_keeps_best.
Qed.

(** C5. When acceptable candidates for a field tie, the first seen is
    kept: of two or more extraction results, the first whose candidate
    is acceptable with the highest confidence gives the merged value,
    and no later candidate of equal (or lower) confidence replaces it. *)
Theorem merge_tie_keeps_first_seen (pre post : list pyval) (a : pyval)
    (f v : string) :
  Forall (λ e, is_extraction_result e = true) (pre ++ a :: post)%list →
  (2 ≤ length (pre ++ a :: post)%list)%nat →
  f ∈ fields →
  candidate_value a f = Some v →
  acceptable (Some v) = true →
  (0 < candidate_confidence a f)%Q →
  (∀ e, e ∈ pre → acceptable (candidate_value e f) = true →
        (candidate_confidence e f < candidate_confidence a f)%Q) →
  (∀ e, e ∈ post → acceptable (candidate_value e f) = true →
        (candidate_confidence e f <= candidate_confidence a f)%Q) →
  ∃ merged scores : gmap string pyval,
    _merge_extractions (pre ++ a :: post)%list
    = Ok (PDict (<["confidence_scores" := PDict scores]> merged)) ∧
    merged !! f = Some (PStr v) ∧
    scores !! f = Some (PNum (candidate_confidence a f)).
Proof.
  intros Hrs Hlen Hf Hv Ha Hpos Hpre Hpost.
  exists (merged_of (pre ++ a :: post)%list), (scores_of (pre ++ a :: post)%list).
  split; [by apply merge_extractions_scan|].
  rewrite merged_of_lookup, scores_of_lookup by done.
  unfold resolved_value, resolved_confidence, candidates.
  rewrite fmap_app, fmap_cons, Hv.
  rewrite (scan_first_of_highest _ _ v (candidate_confidence a f)); try done.
  - intros c (e & -> & He)%list_elem_of_fmap Hc. simpl in *. by apply Hpre.
  - intros c (e & -> & He)%list_elem_of_fmap Hc. simpl in *. by apply Hpost.
Qed.

Lemma merge_tie_keeps_first_seen_witness :
  ∃ merged scores : gmap string pyval,
    _merge_extractions [acme_half; bolt_half]
    = Ok (PDict (<["confidence_scores" := PDict scores]> merged)) ∧
    merged !! "company_name" = Some (PStr "Acme") ∧
    scores !! "company_name" = Some (PNum (1 # 2)).
Proof.
  apply (merge_tie_keeps_first_seen [] [bolt_half] acme_half "company_name" "Acme").
  - repeat constructor.
  - simpl. lia.
  - apply list_elem_of_here.
  - reflexivity.
  - reflexivity.
  - reflexivity.
  - intros e He. by apply elem_of_nil in He.
  - intros e ->%list_elem_of_singleton _. vm_compute. discriminate.
Defined.

(** ** Missing confidence *)

Lemma fill_scores_lookup (dflt : Q) (c : gmap string pyval) (f : string) :
  f ∈ fields →
  fill_scores dflt c !! f = Some (default (PNum dflt) (c !! f)).
Proof.
  unfold fill_scores. generalize fields as fs.
  induction fs as [|a fs IH]; intros Hf; [by apply elem_of_nil in Hf|].
  cbn [foldr]. set (c' := foldr _ c fs) in *.
  destruct (decide (f ∈ fs)) as [Hin|Hnin].
  - specialize (IH Hin). destruct (c' !! a) eqn:Ha; [done|].
    rewrite lookup_insert_ne; [done|]. intros ->. congruence.
  - apply elem_of_cons in Hf as [->|?]; [|done].
    assert (c' !! a = c !! a) as Hsame.
    { clear IH. subst c'. induction fs as [|b fs IH]; [done|]. cbn [foldr].
      apply not_elem_of_cons in Hnin as [Hne Hnin].
      destruct (foldr _ c fs !! b); [by apply IH|].
      rewrite lookup_insert_ne; [by apply IH|done]. }
    destruct (c' !! a) eqn:Ha.
    + rewrite Ha, <- Hsame. done.
    + rewrite lookup_insert_eq, <- Hsame. done.
Qed.

Lemma fill_candidate_value (dflt : Q) (e : pyval) (f : string) :
  f ∈ fields → candidate_value (fill_confidence dflt e) f = candidate_value e f.
Proof.
  intros Hf. destruct e; try done. simpl.
  rewrite lookup_insert_ne; [done|]. intros Heq. by apply (field_not_scores f).
Qed.

(** After filling, the confidence read is the entry if there was one and
    the filled-in default otherwise. *)
Lemma fill_candidate_confidence (dflt : Q) (e : pyval) (f : string) :
  is_extraction_result e = true → f ∈ fields →
  candidate_confidence (fill_confidence dflt e) f
  = default dflt (confidence_entry e f).
Proof.
  intros Hwf Hf. destruct e as [| | | | |d]; try done.
  unfold candidate_confidence, confidence_entry, fill_confidence.
  rewrite lookup_insert_eq, fill_scores_lookup by done.
  destruct (result_confidence d f Hwf Hf) as [->|(c & -> & Hc)].
  - by rewrite lookup_empty.
  - by destruct (c !! f) as [[]|].
Qed.

Lemma fill_is_extraction_result (dflt : Q) (e : pyval) :
  is_extraction_result e = true →
  is_extraction_result (fill_confidence dflt e) = true.
Proof.
  intros Hwf. destruct e as [| | | | |d]; try done.
  unfold fill_confidence, is_extraction_result.
  rewrite lookup_insert_eq. apply andb_true_intro. split.
  - apply forallb_forall. intros f Hf%list_elem_of_In.
    rewrite lookup_insert_ne; [by apply result_field_value|].
    intros Heq. by apply (field_not_scores f).
  - apply forallb_forall. intros f Hf%list_elem_of_In.
    rewrite fill_scores_lookup by done.
    destruct (result_confidence d f Hwf Hf) as [->|(c & -> & Hc)].
    + by rewrite lookup_empty.
    + by destruct (c !! f) as [[]|].
Qed.

(** The merge depends on the results only through the per-field loops. *)
Lemma merge_fields_ext (rs rs' : list pyval) (fs : list string)
    (acc : gmap string pyval * gmap string pyval) :
  Forall (λ f, merge_field f rs = merge_field f rs') fs →
  for_each (merge_fields_step rs) acc fs = for_each (merge_fields_step rs') acc fs.
Proof.
  intros Hfs. revert acc.
  induction Hfs as [|f fs Hf _ IH]; intros [m sc]; simpl; [done|].
  rewrite Hf. destruct (merge_field f rs') as [[bv bc]|]; simpl; [apply IH|done].
Qed.

(** The merge of extraction results returns a dict. *)
Lemma merge_extraction_results_ok (rs : list pyval) :
  Forall (λ e, is_extraction_result e = true) rs →
  ∃ m, _merge_extractions rs = Ok (PDict m).
Proof.
  intros Hrs. destruct rs as [|e1 [|e2 rest]]; [by eexists| |].
  - apply Forall_inv in Hrs. destruct e1; try done. by eexists.
  - eexists. apply merge_extractions_scan; [done|]. simpl. lia.
Qed.

(** C2, amended. Of two or more extraction results, one without a
    confidence map, or without a confidence entry for some field, is
    merged as if the missing confidence were written out as 0.5 (not
    0.0); a single result is returned as it is, no confidence being
    read or filled in; and the merge of extraction results never
    raises. *)
Theorem merge_missing_confidence_is_half (rs : list pyval) :
  Forall (λ e, is_extraction_result e = true) rs →
  (∃ m, _merge_extractions rs = Ok (PDict m)) ∧
  ((2 ≤ length rs)%nat →
   _merge_extractions rs = _merge_extractions (fill_confidence (1 # 2) <$> rs)) ∧
  (∀ e, rs = [e] → _merge_extractions rs = Ok e).
Proof.
  intros Hrs.
  split; [by apply merge_extraction_results_ok|]. split; [|by intros e ->].
  intros Hlen.
  assert (Hfields : Forall (λ f, merge_field f rs
             = merge_field f (fill_confidence (1 # 2) <$> rs)) fields).
  { assert (Hfill : Forall (λ e, is_extraction_result e = true)
                           (fill_confidence (1 # 2) <$> rs)).
    { apply Forall_fmap. eapply Forall_impl; [exact Hrs|].
      intros e He. by apply fill_is_extraction_result. }
    apply Forall_forall. intros f Hf.
    rewrite !merge_field_scan by done. do 3 f_equal.
    unfold candidates. rewrite <- list_fmap_compose.
    apply Forall_fmap_ext_1. eapply Forall_impl; [exact Hrs|].
    intros e He. simpl.
    rewrite fill_candidate_value, fill_candidate_confidence by done.
    done. }
  destruct rs as [|e1 [|e2 rest]]; simpl in Hlen; [lia|lia|].
  unfold _merge_extractions. cbn [fmap list_fmap].
  by rewrite (merge_fields_ext _ _ _ _ Hfields).
Qed.

Lemma merge_missing_confidence_is_half_witness :
  (∃ m, _merge_extractions [acme_bare; empty_result] = Ok (PDict m)) ∧
  ((2 ≤ length [acme_bare; empty_result])%nat →
   _merge_extractions [acme_bare; empty_result]
   = _merge_extractions (fill_confidence (1 # 2) <$> [acme_bare; empty_result])) ∧
  (∀ e, [acme_bare; empty_result] = [e] →
        _merge_extractions [acme_bare; empty_result] = Ok e).
Proof.
  apply (merge_missing_confidence_is_half [acme_bare; empty_result]).
  repeat constructor.
Defined.

(** C2 as stated fails: with 0.0 for the missing confidence the company
    name "Acme" would never be accepted, yet the merge returns it. *)
Lemma merge_missing_confidence_is_not_zero :
  ¬ (∀ rs : list pyval,
       Forall (λ e, is_extraction_result e = true) rs →
       (2 ≤ length rs)%nat →
       _merge_extractions rs = _merge_extractions (fill_confidence 0 <$> rs)).
Proof.
  intros H. specialize (H [acme_bare; empty_result]).
  assert (Heq : returned (_merge_extractions [acme_bare; empty_result]) "company_name"
                = returned (_merge_extractions
                              (fill_confidence 0 <$> [acme_bare; empty_result]))
                           "company_name").
  { rewrite <- H; [done|repeat constructor|simpl; lia]. }
  vm_compute in Heq. discriminate Heq.
Qed.

(** ** No result, one result *)

(** C3, amended. For the empty input sequence the merge returns an empty
    mapping without raising; the ExtractedInformation built from it has
    each of the eleven fields missing ([None], not the sentinel) and an
    empty confidence map (no entry, not an entry 0). *)
Theorem merge_empty_is_blank (now : string) :
  _merge_extractions [] = Ok (PDict ∅) ∧
  merged_information [] now = Ok (blank_information now) ∧
  Forall (λ f, asdict (blank_information now) !! f = Some PNone ∧
               recorded_confidence (blank_information now) f = None) fields.
Proof.
  split; [done|]. split; [done|].
  repeat constructor.
Qed.

(** C3 as stated fails: no field of the result of the empty merge is the
    sentinel, and no confidence 0 is recorded. *)
Lemma merge_empty_is_not_sentinel :
  ¬ (∀ now : string, ∃ info,
       merged_information [] now = Ok info ∧
       Forall (λ f, asdict info !! f = Some (PStr sentinel) ∧
                    recorded_confidence info f = Some (PNum 0)) fields).
Proof.
  intros H. destruct (H "") as (info & Hinfo & Hall).
  injection Hinfo as <-.
  apply Forall_inv in Hall as [Hfield _].
  vm_compute in Hfield. discriminate Hfield.
Qed.

(** C4, amended. A single extraction result is returned as it is: each
    of the eleven fields of the ExtractedInformation is the value the
    result has for it, and a field missing from the result stays missing
    ([None]); it is not coerced to the sentinel. *)
Theorem merge_single_passes_through (d : gmap string pyval) (now : string) :
  _merge_extractions [PDict d] = Ok (PDict d) ∧
  ∃ info, merged_information [PDict d] now = Ok info ∧
          Forall (λ f, asdict info !! f = Some (default PNone (d !! f))) fields ∧
          confidence_scores info
          = post_init_scores (default (PDict ∅) (d !! "confidence_scores")).
Proof.
  split; [done|]. eexists. split; [reflexivity|].
  split; [|done]. repeat constructor.
Qed.

(** C4 as stated fails: a result without a company name yields [None]
    for it, not the sentinel. *)
Lemma merge_single_does_not_coerce :
  ¬ (∀ (r : pyval) (now : string),
       is_extraction_result r = true →
       ∃ info, merged_information [r] now = Ok info ∧
               Forall (λ f, asdict info !! f
                            = Some (PStr (default sentinel (candidate_value r f))))
                      fields).
Proof.
  intros H. destruct (H empty_result "") as (info & Hinfo & Hall); [done|].
  injection Hinfo as <-.
  apply Forall_inv in Hall.
  vm_compute in Hall. discriminate Hall.
Qed.

(** ** The section parser *)

Lemma append_assoc (s1 s2 s3 : string) : (s1 +:+ s2) +:+ s3 = s1 +:+ (s2 +:+ s3).
Proof.
  induction s1 as [|a s1 IH]; [done|].
  change (String a ((s1 +:+ s2) +:+ s3) = String a (s1 +:+ (s2 +:+ s3))).
  by f_equal.
Qed.

Lemma append_empty_r (s : string) : s +:+ "" = s.
Proof.
  induction s as [|a s IH]; [done|].
  change (String a (s +:+ "") = String a s). by f_equal.
Qed.

(** The header check of the source is the first trigger in priority
    order. *)
Lemma find_header_trigger (line : string) (cur : option string) :
  find_header section_mapping (lower line) cur
  = match trigger line with
    | Some s => Some (section_name s)
    | None => cur
    end.
Proof.
  unfold trigger. simpl.
  by repeat (destruct (str_in _ (lower line)); [done|]).
Qed.

Lemma any_key_trigger (line : string) :
  any_key section_mapping (lower line)
  = match trigger line with
    | Some _ => true
    | None => false
    end.
Proof.
  unfold trigger, any_key. simpl.
  by repeat (destruct (str_in _ (lower line)); [done|]).
Qed.

(** A line with a trigger moves the pointer and is stored nowhere. *)
Lemma parse_line_header (cur : option string) (secs : gmap string string)
    (line : string) (s : section) :
  trigger line = Some s →
  parse_line (cur, secs) line = Ok (Some (section_name s), secs).
Proof.
  intros Ht. unfold parse_line.
  rewrite find_header_trigger, any_key_trigger, Ht.
  by rewrite andb_false_r.
Qed.

(** A non-blank line without a trigger goes to the current section. *)
Lemma parse_line_body (s : section) (secs : gmap string string)
    (line text : string) :
  trigger line = None → is_blank line = false →
  secs !! section_name s = Some text →
  parse_line (Some (section_name s), secs) line
  = Ok (Some (section_name s),
        <[section_name s := text +:+ line +:+ newline]> secs).
Proof.
  intros Ht Hb Hs. unfold parse_line.
  rewrite find_header_trigger, any_key_trigger, Ht.
  unfold is_blank in Hb. rewrite Hb, Hs. by destruct s.
Qed.

(** A blank line, or a line met before any header, changes nothing. *)
Lemma parse_line_skip (cur : option string) (secs : gmap string string)
    (line : string) :
  trigger line = None → cur = None ∨ is_blank line = true →
  parse_line (cur, secs) line = Ok (cur, secs).
Proof.
  intros Ht Hskip. unfold parse_line.
  rewrite find_header_trigger, any_key_trigger, Ht.
  destruct Hskip as [->|Hb]; [done|].
  unfold is_blank in Hb. rewrite Hb. destruct cur; [|done].
  by rewrite andb_false_r.
Qed.

Lemma sections_of_lookup (a : accumulator) (s : section) :
  sections_of a !! section_name s = Some (acc_get a s).
Proof. by destruct s. Qed.

Lemma sections_of_append (a : accumulator) (s : section) (text : string) :
  <[section_name s := acc_get a s +:+ text]> (sections_of a)
  = sections_of (acc_append a s text).
Proof. by destruct s. Qed.

(** The loop body is one transition of the automaton. *)
Lemma parse_line_automaton (st : option section * accumulator) (line : string) :
  parse_line (loop_state st) line = Ok (loop_state (automaton_step st line)).
Proof.
  destruct st as [cur a]. unfold loop_state, automaton_step. cbn [fst snd].
  destruct (trigger line) as [s|] eqn:Ht.
  - by apply parse_line_header.
  - destruct cur as [c|].
    + change (section_name <$> Some c) with (Some (section_name c)).
      destruct (is_blank line) eqn:Hb.
      * apply parse_line_skip; auto.
      * rewrite (parse_line_body c _ line (acc_get a c)); try done.
        -- cbn [fst snd]. by rewrite sections_of_append.
        -- apply sections_of_lookup.
    + apply parse_line_skip; auto.
Qed.

Lemma parse_lines_automaton (st : option section * accumulator)
    (lines : list string) :
  parse_lines (loop_state st) lines = Ok (loop_state (automaton_run st lines)).
Proof.
  unfold parse_lines, automaton_run.
  apply (for_each_foldl parse_line automaton_step loop_state (λ _, True)).
  - intros t x _. apply parse_line_automaton.
  - by apply Forall_true.
Qed.

Lemma strip_sections_of (a : accumulator) :
  strip <$> sections_of a = sections_of (trim_all a).
Proof. by destruct a. Qed.

(** The parser returns what the automaton computes, on every input. *)
Lemma parse_report_sections_automaton (report_text : string) :
  _parse_report_sections report_text = Ok (automaton_parse report_text).
Proof.
  unfold _parse_report_sections, automaton_parse.
  change (None, initial_sections) with (loop_state (None, empty_accumulator)).
  rewrite parse_lines_automaton. simpl. by rewrite strip_sections_of.
Qed.

(** C6. The parser is the finite-state accumulator of the specification:
    lines are processed in order from an unset pointer; a line whose
    lower-cased text contains a trigger, tried in the order "nature and
    state", "market need", "roi", "management", sets the pointer and is
    stored in no section; another non-blank line is appended to the
    section the pointer designates; every section is trimmed at the end.
    On the example report, nature_and_state is "Growing fast",
    roi_elements is "High return" and the two other sections are empty. *)
Theorem parse_report_sections_spec :
  (∀ report_text : string,
     _parse_report_sections report_text = Ok (automaton_parse report_text)) ∧
  ∃ sections : gmap string string,
    _parse_report_sections sample_report = Ok sections ∧
    sections !! "nature_and_state" = Some "Growing fast" ∧
    sections !! "roi_elements" = Some "High return" ∧
    sections !! "market_need_and_size" = Some "" ∧
    sections !! "management_team_strength" = Some "".
Proof.
  split.
  - apply parse_report_sections_automaton.
  - eexists. split; [vm_compute; reflexivity|]. by vm_compute.
Qed.




(** Without a header the pointer stays unset and nothing is stored. *)
Lemma parse_lines_no_header (secs : gmap string string) (lines : list string) :
  Forall (λ l, any_key section_mapping (lower l) = false) lines →
  parse_lines (None, secs) lines = Ok (None, secs).
Proof.
  unfold parse_lines.
  induction 1 as [|l lines Hl _ IH]; [done|].
  rewrite any_key_trigger in Hl.
  rewrite (for_each_cons_ok _ _ (None, secs)); [done|].
  apply parse_line_skip; [by destruct (trigger l) | by left].
Qed.

(** C8. When no line of the input contains any of the four trigger
    substrings, the parser returns the four sections as empty strings
    and does not raise. *)
Theorem parse_without_trigger_is_empty (report_text : string) :
  Forall (λ l, any_key section_mapping (lower l) = false)
         (split_lines report_text) →
  _parse_report_sections report_text = Ok initial_sections ∧
  Forall (λ s, initial_sections !! section_name s = Some "")
         [NatureAndState; MarketNeedAndSize; RoiElements; ManagementTeamStrength] ∧
  size initial_sections = 4%nat.
Proof.
  intros Hno. split; [|split; [repeat constructor|done]].
  unfold _parse_report_sections. by rewrite parse_lines_no_header.
Qed.

Lemma parse_without_trigger_is_empty_witness :
  _parse_report_sections "" = Ok initial_sections ∧
  Forall (λ s, initial_sections !! section_name s = Some "")
         [NatureAndState; MarketNeedAndSize; RoiElements; ManagementTeamStrength] ∧
  size initial_sections = 4%nat.
Proof.
  apply (parse_without_trigger_is_empty "").
  repeat constructor.
Defined.

(** ** The orchestrator *)

Section OrchestratorFacts.
Context {World : Type} (env : Collaborators World).

(** One chunk costs one call and never raises: a failure of the call
    or of the decoding leaves [all_extractions] as it was. *)
Lemma extract_chunk_spec (all_extractions : list pyval) (chunk : string)
    (s : state World) :
  ∃ all', (extract_chunk env all_extractions chunk s).1 = Ok all' ∧
          (all' = all_extractions ∨
           ∃ response v, json_loads env response = Ok v ∧
                         all' = (all_extractions ++ [v])%list) ∧
          calls (extract_chunk env all_extractions chunk s).2
          = (calls s ++ [extraction_messages env chunk])%list.
Proof.
  unfold extract_chunk, try_except, invoke, lift, mbind, M_bind, mret, M_ret.
  destruct (llm_invoke env (extraction_messages env chunk) (world s))
    as [[response|e] w]; simpl.
  - destruct (json_loads env response) as [v|e] eqn:Hv; simpl; eauto 8.
  - eauto.
Qed.

Lemma extract_chunk_call_failure (all_extractions : list pyval)
    (chunk : string) (s : state World) (e : exn) (w : World) :
  llm_invoke env (extraction_messages env chunk) (world s) = (Raise e, w) →
  (extract_chunk env all_extractions chunk s).1 = Ok all_extractions.
Proof.
  intros H.
  unfold extract_chunk, try_except, invoke, lift, mbind, M_bind, mret, M_ret.
  by rewrite H.
Qed.

Lemma extract_chunk_decode_failure (all_extractions : list pyval)
    (chunk response : string) (s : state World) (e : exn) (w : World) :
  llm_invoke env (extraction_messages env chunk) (world s) = (Ok response, w) →
  json_loads env response = Raise e →
  (extract_chunk env all_extractions chunk s).1 = Ok all_extractions.
Proof.
  intros H1 H2.
  unfold extract_chunk, try_except, invoke, lift, mbind, M_bind, mret, M_ret.
  rewrite H1. simpl. by rewrite H2.
Qed.

(** The loop over the chunks: one call per chunk, in order. *)
Lemma extract_chunks_calls (chunks : list string) :
  ∀ (all_extractions : list pyval) (s : state World),
    (∃ all', (for_each_M (extract_chunk env) all_extractions chunks s).1 = Ok all') ∧
    calls (for_each_M (extract_chunk env) all_extractions chunks s).2
    = (calls s ++ (extraction_messages env <$> chunks))%list.
Proof.
  induction chunks as [|chunk chunks IH]; intros all_extractions s.
  - simpl. rewrite app_nil_r. eauto.
  - cbn [for_each_M]. unfold mbind, M_bind.
    destruct (extract_chunk_spec all_extractions chunk s) as (all' & Hr & _ & Hc).
    destruct (extract_chunk env all_extractions chunk s) as [r s1].
    simpl in Hr, Hc. subst r.
    destruct (IH all' s1) as [Hok Hcalls]. split; [done|].
    rewrite Hcalls, Hc, <- app_assoc. done.
Qed.

(** C10. Only the first three chunks (at most) of the chunked text are
    submitted to the extraction model: the calls that
    [extract_information] issues are exactly those for the chunks of
    [chunks[:3]], in order, so there are never more than three. *)
Theorem extraction_calls_at_most_three (text : string) (s : state World) :
  ∃ issued : list (list message),
    calls (extract_information env text s).2 = (calls s ++ issued)%list ∧
    issued = extraction_messages env <$> take 3 (split_text env text) ∧
    (length issued ≤ 3)%nat ∧
    (length issued ≤ length (split_text env text))%nat.
Proof.
  eexists. split; [|split; [reflexivity|]].
  - unfold extract_information, mbind, M_bind.
    destruct (extract_chunks_calls (take 3 (split_text env text)) [] s)
      as [[all' Hok] Hcalls].
    destruct (for_each_M (extract_chunk env) [] (take 3 (split_text env text)) s)
      as [r s1].
    simpl in Hok, Hcalls. subst r. rewrite <- Hcalls.
    unfold lift, read_clock.
    destruct (_merge_extractions all') as [merged_info|e]; [|done].
    by destruct (new_ExtractedInformation merged_info _).
  - rewrite length_fmap, length_take. lia.
Qed.

(** The report step raises exactly when its call to the model does. *)
Lemma generate_report_raises_iff (info : ExtractedInformation) (s : state World) :
  (∃ e, (generate_report env info s).1 = Raise e)
  ↔ (∃ e, (llm_invoke env (report_messages env info) (world s)).1 = Raise e).
Proof.
  unfold generate_report, try_except, invoke, lift, raise, mbind, M_bind,
    mret, M_ret.
  destruct (llm_invoke env (report_messages env info) (world s))
    as [[response|e] w]; simpl.
  - rewrite parse_report_sections_automaton. simpl.
    split; intros [e He]; discriminate He.
  - split; intros _; by exists e.
Qed.

(** A failure of the report call reaches the caller unchanged. *)
Lemma generate_report_propagates (info : ExtractedInformation)
    (s : state World) (e : exn) (w : World) :
  llm_invoke env (report_messages env info) (world s) = (Raise e, w) →
  (generate_report env info s).1 = Raise e.
Proof.
  intros H.
  unfold generate_report, try_except, invoke, lift, raise, mbind, M_bind.
  by rewrite H.
Qed.

(** What a chunk adds, if anything: the decoded response of its own
    extraction call. *)
Lemma extract_chunk_result (all_extractions : list pyval) (chunk : string)
    (s : state World) :
  ∃ all', (extract_chunk env all_extractions chunk s).1 = Ok all' ∧
          (all' = all_extractions ∨
           ∃ response w' v,
             llm_invoke env (extraction_messages env chunk) (world s)
             = (Ok response, w') ∧
             json_loads env response = Ok v ∧
             all' = (all_extractions ++ [v])%list).
Proof.
  unfold extract_chunk, try_except, invoke, lift, mbind, M_bind, mret, M_ret.
  destruct (llm_invoke env (extraction_messages env chunk) (world s))
    as [[response|e] w]; simpl.
  - destruct (json_loads env response) as [v|e] eqn:Hv; simpl; eauto 10.
  - eauto.
Qed.

(** Extraction calls whose decoded responses are extraction results: the
    loop collects extraction results. *)
Lemma extract_chunks_results (chunks : list string) :
  (∀ chunk w response w' v,
     llm_invoke env (extraction_messages env chunk) w = (Ok response, w') →
     json_loads env response = Ok v → is_extraction_result v = true) →
  ∀ (all_extractions : list pyval) (s : state World),
    Forall (λ e, is_extraction_result e = true) all_extractions →
    ∃ all', (for_each_M (extract_chunk env) all_extractions chunks s).1 = Ok all' ∧
            Forall (λ e, is_extraction_result e = true) all'.
Proof.
  intros Hjson.
  induction chunks as [|chunk chunks IH]; intros all_extractions s Hall.
  - simpl. eauto.
  - cbn [for_each_M]. unfold mbind, M_bind.
    destruct (extract_chunk_result all_extractions chunk s)
      as (all' & Hr & Hshape).
    destruct (extract_chunk env all_extractions chunk s) as [r s1].
    simpl in Hr. subst r. apply IH.
    destruct Hshape as [->|(response & w' & v & Hcall & Hv & ->)]; [done|].
    apply Forall_app. split; [done|]. repeat constructor.
    by eapply Hjson.
Qed.

(** X16. The analysis step of a request, [extract_information] followed
    by [generate_report]: when every response to an extraction call
    that [json.loads] decodes is an extraction result, the extraction
    returns and the step raises exactly when the report call raises. *)
Lemma analyze_raises_iff_report_call_raises (text : string) (s : state World) :
  (∀ chunk w response w' v,
     llm_invoke env (extraction_messages env chunk) w = (Ok response, w') →
     json_loads env response = Ok v → is_extraction_result v = true) →
  ∃ info s1,
    extract_information env text s = (Ok info, s1) ∧
    ((∃ e, (analyze env text s).1 = Raise e)
     ↔ (∃ e, (llm_invoke env (report_messages env info) (world s1)).1 = Raise e)).
Proof.
  intros Hjson.
  assert (∃ info s1, extract_information env text s = (Ok info, s1))
    as (info & s1 & Hinfo).
  { unfold extract_information, mbind, M_bind.
    destruct (extract_chunks_results (take 3 (split_text env text)) Hjson [] s)
      as (all' & Hok & Hall); [done|].
    destruct (for_each_M (extract_chunk env) [] (take 3 (split_text env text)) s)
      as [r s1].
    simpl in Hok. subst r. unfold lift, read_clock.
    destruct (merge_extraction_results_ok all' Hall) as [m ->].
    by eexists _, _. }
  exists info, s1. split; [done|].
  rewrite <- generate_report_raises_iff.
  unfold analyze, mbind, M_bind. rewrite Hinfo.
  destruct (generate_report env info s1) as [[report|e] s2]; simpl.
  - split; intros [e He]; discriminate He.
  - split; intros _; by exists e.
Qed.

End OrchestratorFacts.

(** Decoded responses that are not extraction results escape the
    [try] block of [extract_information]: the merge itself raises on a
    field that is a number, and on a confidence map that is not an
    object. *)
Example merge_raises_on_number_value :
  _merge_extractions [PDict {[ "years_to_exit" := PNum 5 ]}; empty_result]
  = Raise AttributeError.
Proof. by vm_compute. Qed.

Example merge_raises_on_scalar_confidence_map :
  _merge_extractions [PDict {[ "confidence_scores" := PNum 1 ]}; empty_result]
  = Raise AttributeError.
Proof. by vm_compute. Qed.

(** C9, at a failing request.  The extraction call returns the text
    [[]]; decoding succeeds, the single result is passed through by the
    merge, and building the ExtractedInformation raises [AttributeError]:
    the request fails although no call to the model raised, and the
    report call is never issued. *)
Theorem analyze_fails_without_report_failure :
  (analyze list_reply_env "summary" initial_state).1 = Raise AttributeError ∧
  calls (analyze list_reply_env "summary" initial_state).2
  = [extraction_messages list_reply_env "summary"] ∧
  (∀ messages w, (llm_invoke list_reply_env messages w).1 = Ok "[]").
Proof. split; [|split]; by vm_compute. Qed.

(** * Further properties of the merge *)

(** The sentinel itself is never an acceptable candidate. *)
Lemma sentinel_not_acceptable : acceptable (Some sentinel) = false.
Proof. by vm_compute. Qed.

(** Candidates that are not acceptable leave the fold where it was. *)
Lemma scan_step_unacceptable (b c : option string * Q) :
  acceptable c.1 = false → scan_step b c = b.
Proof. intros H. unfold scan_step, accepts. by rewrite H. Qed.

Lemma scan_skip_unacceptable (c1 c2 : list (option string * Q))
    (c : option string * Q) :
  acceptable c.1 = false → scan (c1 ++ c :: c2)%list = scan (c1 ++ c2)%list.
Proof.
  intros H. unfold scan. rewrite !foldl_app. simpl.
  by rewrite scan_step_unacceptable.
Qed.

(** The confidence of the fold is never negative, and it is 0 exactly
    when the value is the sentinel. *)
Lemma resolved_confidence_nonneg (cands : list (option string * Q)) :
  (0 <= resolved_confidence cands)%Q.
Proof.
  unfold resolved_confidence.
  destruct (scan_characterised cands) as [[-> _]|(v & q & -> & _ & _ & Hq & _)];
    simpl; lra.
Qed.

Lemma resolved_value_nonempty (cands : list (option string * Q)) :
  resolved_value cands ≠ "".
Proof.
  unfold resolved_value.
  destruct (scan cands).1 as [v|] eqn:Hv; simpl; [|done].
  apply scan_value_acceptable in Hv. simpl in Hv.
  apply andb_prop in Hv as [Hne _]. intros ->. done.
Qed.

Lemma resolved_sentinel_iff (cands : list (option string * Q)) :
  (resolved_value cands = sentinel ↔ (resolved_confidence cands == 0)%Q) ∧
  (resolved_value cands = sentinel ↔
   ∀ c, c ∈ cands → acceptable c.1 = true → (c.2 <= 0)%Q).
Proof.
  unfold resolved_value, resolved_confidence.
  destruct (scan_characterised cands)
    as [[-> Hall]|(v & q & -> & Hin & Ha & Hq & Hall)]; simpl.
  - split; split; try done.
  - assert (v ≠ sentinel) as Hv.
    { intros ->. by rewrite sentinel_not_acceptable in Ha. }
    split; split; try done.
    + intros Heq. rewrite Heq in Hq. lra.
    + intros Hle. specialize (Hle (Some v, q) Hin Ha). simpl in Hle. lra.
Qed.

(** X1. Two or more extraction results always merge into a complete
    ExtractedInformation: each of the eleven fields is a non-empty
    string, and the confidence recorded for it is a number that is not
    negative. *)
Theorem merged_information_complete (rs : list pyval) (now : string) :
  Forall (λ e, is_extraction_result e = true) rs →
  (2 ≤ length rs)%nat →
  ∃ info, merged_information rs now = Ok info ∧
    Forall (λ f, ∃ (v : string) (q : Q),
                   asdict info !! f = Some (PStr v) ∧ v ≠ "" ∧
                   recorded_confidence info f = Some (PNum q) ∧ (0 <= q)%Q)
           fields.
Proof.
  intros Hrs Hlen. unfold merged_information.
  rewrite (merge_extractions_scan rs Hrs Hlen). simpl.
  unfold new_ExtractedInformation. simpl.
  rewrite !lookup_insert_ne by done. rewrite lookup_insert_eq.
  rewrite !merged_of_lookup by (apply list_elem_of_In; simpl; tauto).
  simpl. eexists. split; [reflexivity|].
  apply Forall_forall. intros f Hf.
  exists (resolved_value (candidates f rs)), (resolved_confidence (candidates f rs)).
  split.
  { apply list_elem_of_In in Hf. simpl in Hf.
    repeat (destruct Hf as [<-|Hf]; [reflexivity|]). done. }
  split; [apply resolved_value_nonempty|].
  split; [by apply scores_of_lookup | apply resolved_confidence_nonneg].
Qed.

Lemma merged_information_complete_witness :
  ∃ info, merged_information [acme_low; bolt_high] "now" = Ok info ∧
    Forall (λ f, ∃ (v : string) (q : Q),
                   asdict info !! f = Some (PStr v) ∧ v ≠ "" ∧
                   recorded_confidence info f = Some (PNum q) ∧ (0 <= q)%Q)
           fields.
Proof.
  apply (merged_information_complete [acme_low; bolt_high] "now").
  - repeat constructor.
  - simpl. lia.
Defined.

(** X2. In the merge of two or more extraction results a field is the
    sentinel exactly when its confidence is 0, and exactly when no
    candidate for it is acceptable with a confidence above 0. *)
Theorem merged_sentinel_iff_zero_confidence (rs : list pyval) :
  Forall (λ e, is_extraction_result e = true) rs →
  (2 ≤ length rs)%nat →
  ∃ merged scores : gmap string pyval,
    _merge_extractions rs
    = Ok (PDict (<["confidence_scores" := PDict scores]> merged)) ∧
    ∀ f, f ∈ fields →
      ∃ (v : string) (q : Q),
        merged !! f = Some (PStr v) ∧ scores !! f = Some (PNum q) ∧
        (v = sentinel ↔ (q == 0)%Q) ∧
        (v = sentinel ↔
         ∀ e, e ∈ rs → acceptable (candidate_value e f) = true →
              (candidate_confidence e f <= 0)%Q).
Proof.
  intros Hrs Hlen. exists (merged_of rs), (scores_of rs).
  split; [by apply merge_extractions_scan|].
  intros f Hf. eexists _, _.
  split; [by apply merged_of_lookup|]. split; [by apply scores_of_lookup|].
  destruct (resolved_sentinel_iff (candidates f rs)) as [H1 H2].
  split; [done|]. rewrite H2. unfold candidates. split.
  - intros H e He. apply (H (candidate_value e f, candidate_confidence e f)).
    apply list_elem_of_fmap. by exists e.
  - intros H c (e & -> & He)%list_elem_of_fmap. by apply H.
Qed.

Lemma merged_sentinel_iff_zero_confidence_witness :
  ∃ merged scores : gmap string pyval,
    _merge_extractions [acme_bare; empty_result]
    = Ok (PDict (<["confidence_scores" := PDict scores]> merged)) ∧
    ∀ f, f ∈ fields →
      ∃ (v : string) (q : Q),
        merged !! f = Some (PStr v) ∧ scores !! f = Some (PNum q) ∧
        (v = sentinel ↔ (q == 0)%Q) ∧
        (v = sentinel ↔
         ∀ e, e ∈ [acme_bare; empty_result] →
              acceptable (candidate_value e f) = true →
              (candidate_confidence e f <= 0)%Q).
Proof.
  apply (merged_sentinel_iff_zero_confidence [acme_bare; empty_result]).
  - repeat constructor.
  - simpl. lia.
Defined.




(** X4. The merge of two or more extraction results returns a dict with
    exactly twelve keys, the eleven fields and "confidence_scores", and
    the confidence map has exactly the eleven fields: any other key of
    the inputs is dropped. *)
Theorem merged_keys_are_the_fields (rs : list pyval) :
  Forall (λ e, is_extraction_result e = true) rs →
  (2 ≤ length rs)%nat →
  ∃ d scores : gmap string pyval,
    _merge_extractions rs = Ok (PDict d) ∧
    d !! "confidence_scores" = Some (PDict scores) ∧
    (∀ k, is_Some (d !! k) ↔ k ∈ fields ∨ k = "confidence_scores") ∧
    (∀ k, is_Some (scores !! k) ↔ k ∈ fields) ∧
    size d = 12%nat ∧ size scores = 11%nat.
Proof.
  intros Hrs Hlen.
  exists (<["confidence_scores" := PDict (scores_of rs)]> (merged_of rs)),
         (scores_of rs).
  split; [by apply merge_extractions_scan|].
  split; [apply lookup_insert_eq|].
  split; [|split; [|split]].
  - intros k. rewrite lookup_insert.
    destruct (decide ("confidence_scores" = k)) as [<-|Hne].
    + split; [by right | by eexists].
    + unfold merged_of. rewrite insert_all_lookup, lookup_empty.
      destruct (decide (k ∈ fields)) as [Hk|Hk].
      * split; [by left | by eexists].
      * split; [by intros [x Hx] | by intros [?| ->]].
  - intros k. unfold scores_of. rewrite insert_all_lookup, lookup_empty.
    destruct (decide (k ∈ fields)) as [Hk|Hk].
    + split; [done | by eexists].
    + split; [by intros [x Hx] | done].
  - by vm_compute.
  - by vm_compute.
Qed.

Lemma merged_keys_are_the_fields_witness :
  ∃ d scores : gmap string pyval,
    _merge_extractions [acme_low; bolt_high] = Ok (PDict d) ∧
    d !! "confidence_scores" = Some (PDict scores) ∧
    (∀ k, is_Some (d !! k) ↔ k ∈ fields ∨ k = "confidence_scores") ∧
    (∀ k, is_Some (scores !! k) ↔ k ∈ fields) ∧
    size d = 12%nat ∧ size scores = 11%nat.
Proof.
  apply (merged_keys_are_the_fields [acme_low; bolt_high]).
  - repeat constructor.
  - simpl. lia.
Defined.

Lemma insert_all_ext {V} (val val' : string → V) (ks : list string)
    (m : gmap string V) :
  Forall (λ k, val k = val' k) ks → insert_all val ks m = insert_all val' ks m.
Proof.
  unfold insert_all. intros H. revert m.
  induction H as [|k ks Hk _ IH]; intros m; simpl; [done|].
  rewrite Hk. apply IH.
Qed.

(** X5. An extraction result that offers no acceptable candidate (every
    field missing, empty or saying "not provided") does not change the
    merge of two or more other results, wherever it stands. *)
Theorem merge_ignores_results_without_candidates (rs1 rs2 : list pyval)
    (e : pyval) :
  Forall (λ e, is_extraction_result e = true) (rs1 ++ e :: rs2)%list →
  (2 ≤ length (rs1 ++ rs2)%list)%nat →
  Forall (λ f, acceptable (candidate_value e f) = false) fields →
  _merge_extractions (rs1 ++ e :: rs2)%list = _merge_extractions (rs1 ++ rs2)%list.
Proof.
  intros Hrs Hlen He.
  assert (Hrs' : Forall (λ e, is_extraction_result e = true) (rs1 ++ rs2)%list).
  { apply Forall_app in Hrs as [H1 H2]. apply Forall_cons in H2 as [_ H2].
    by apply Forall_app. }
  assert (Hcands : ∀ f, f ∈ fields →
            scan (candidates f (rs1 ++ e :: rs2)%list)
            = scan (candidates f (rs1 ++ rs2)%list)).
  { intros f Hf. unfold candidates. rewrite !fmap_app, fmap_cons.
    apply scan_skip_unacceptable. rewrite Forall_forall in He. by apply He. }
  rewrite !merge_extractions_scan; try done.
  - do 3 f_equal.
    + f_equal. unfold scores_of. apply insert_all_ext.
      apply Forall_forall. intros f Hf. unfold resolved_confidence.
      by rewrite Hcands.
    + unfold merged_of. apply insert_all_ext.
      apply Forall_forall. intros f Hf. unfold resolved_value.
      by rewrite Hcands.
  - rewrite length_app in *. simpl. lia.
Qed.

Lemma merge_ignores_results_without_candidates_witness :
  _merge_extractions [acme_low; empty_result; bolt_high]
  = _merge_extractions [acme_low; bolt_high].
Proof.
  apply (merge_ignores_results_without_candidates [acme_low] [bolt_high]
           empty_result).
  - repeat constructor.
  - simpl. lia.
  - repeat constructor.
Defined.

(** ** Decoded values that are not objects *)

Lemma merge_step_non_dict (f : string) (b : pyval * number) (e : pyval) :
  is_dict e = false → merge_step f b e = Raise AttributeError.
Proof. intros He. destruct b. by destruct e. Qed.

(** The loop body raises nothing but [AttributeError] and [TypeError]. *)
Lemma merge_step_errors (f : string) (b : pyval * number) (e : pyval) (err : exn) :
  merge_step f b e = Raise err → err = AttributeError ∨ err = TypeError.
Proof.
  destruct b as [bv bc].
  destruct e as [| | | | |d];
    try (rewrite merge_step_non_dict by done; intros [= <-]; by left).
  unfold merge_step. simpl.
  destruct (default (PDict ∅) (d !! "confidence_scores")) as [| | | | |sc];
    simpl; try (intros [= <-]; by left).
  destruct (py_truthy (default PNone (d !! f))); [|done].
  destruct (default PNone (d !! f)); simpl; try (intros [= <-]; by left).
  destruct (negb _); [|done].
  destruct (as_number _); [by destruct (Qgtb _ _)|].
  intros [= <-]. by right.
Qed.

Lemma merge_loop_non_dict (f : string) (rs : list pyval) (e : pyval) :
  e ∈ rs → is_dict e = false →
  ∀ b, ∃ err, for_each (merge_step f) b rs = Raise err ∧
              (err = AttributeError ∨ err = TypeError).
Proof.
  intros He Hd. induction rs as [|r rs IH]; [by apply elem_of_nil in He|].
  intros b. cbn [for_each].
  destruct (merge_step f b r) as [b'|err] eqn:Hstep.
  - apply elem_of_cons in He as [->|He].
    + rewrite merge_step_non_dict in Hstep by done. discriminate Hstep.
    + apply (IH He b').
  - exists err. split; [done|]. by eapply merge_step_errors.
Qed.

Lemma merge_fields_first_raises (rs : list pyval) (f : string)
    (fs : list string) (acc : gmap string pyval * gmap string pyval) (err : exn) :
  merge_field f rs = Raise err →
  for_each (merge_fields_step rs) acc (f :: fs) = Raise err.
Proof. intros H. destruct acc. simpl. by rewrite H. Qed.

(** X6. A decoded response that is not a JSON object (a list, a string,
    a number, null) makes the request fail once it has been collected:
    merging and building the ExtractedInformation raise
    [AttributeError] or [TypeError], whatever the other results are. *)
Theorem merged_information_raises_on_non_object (rs : list pyval)
    (now : string) (e : pyval) :
  e ∈ rs → is_dict e = false →
  ∃ err, merged_information rs now = Raise err ∧
         (err = AttributeError ∨ err = TypeError).
Proof.
  intros He Hd. unfold merged_information.
  destruct rs as [|e1 [|e2 rest]].
  - by apply elem_of_nil in He.
  - apply list_elem_of_singleton in He as ->.
    exists AttributeError. split; [|by left]. by destruct e1.
  - destruct (merge_loop_non_dict "company_name" _ e He Hd (PNone, NRat 0))
      as (err & Hraise & Herr).
    exists err. split; [|done].
    unfold _merge_extractions, fields.
    by rewrite (merge_fields_first_raises _ _ _ _ err Hraise).
Qed.

Lemma merged_information_raises_on_non_object_witness :
  ∃ err, merged_information [acme_low; PList []; bolt_high] "now" = Raise err ∧
         (err = AttributeError ∨ err = TypeError).
Proof.
  apply (merged_information_raises_on_non_object _ "now" (PList [])).
  - apply list_elem_of_further, list_elem_of_here.
  - reflexivity.
Defined.

(** * Strings: reversal, trimming, substrings *)

Lemma append_cons (a : ascii) (s t : string) :
  String a s +:+ t = String a (s +:+ t).
Proof. done. Qed.

Lemma lower_app (s t : string) : lower (s +:+ t) = lower s +:+ lower t.
Proof.
  induction s as [|a s IH]; [done|].
  rewrite append_cons. simpl. by rewrite IH.
Qed.

Lemma rev_app_spec (s t : string) : String.rev_app s t = String.rev s +:+ t.
Proof.
  revert t. induction s as [|a s IH]; intros t; [done|].
  unfold String.rev. simpl. rewrite (IH (String a t)), (IH (String a "")).
  by rewrite append_assoc.
Qed.

Lemma rev_cons (a : ascii) (s : string) :
  String.rev (String a s) = String.rev s +:+ String a "".
Proof. unfold String.rev at 1. simpl. apply rev_app_spec. Qed.

Lemma rev_append (s t : string) :
  String.rev (s +:+ t) = String.rev t +:+ String.rev s.
Proof.
  induction s as [|a s IH]; [by rewrite append_empty_r|].
  rewrite append_cons, !rev_cons, IH. apply append_assoc.
Qed.

Lemma rev_involutive (s : string) : String.rev (String.rev s) = s.
Proof.
  induction s as [|a s IH]; [done|].
  by rewrite rev_cons, rev_append, IH.
Qed.

Lemma rev_empty (s : string) : String.rev s = "" → s = "".
Proof. intros H. by rewrite <- (rev_involutive s), H. Qed.

(** [lstrip] removes a whitespace prefix and stops at the first other
    character. *)
Lemma lstrip_split (s : string) :
  ∃ w, s = w +:+ lstrip s ∧ all_whitespace w = true.
Proof.
  induction s as [|a s (w & Hs & Hw)]; [by exists ""|].
  simpl. destruct (is_whitespace a) eqn:Ha.
  - exists (String a w). rewrite append_cons, <- Hs. simpl. by rewrite Ha, Hw.
  - by exists "".
Qed.

Lemma lstrip_head (s t : string) (a : ascii) :
  lstrip s = String a t → is_whitespace a = false.
Proof.
  induction s as [|b s IH]; [done|]. simpl.
  destruct (is_whitespace b) eqn:Hb; [done|]. by intros [= <- _].
Qed.

Lemma lstrip_idem (s : string) : lstrip (lstrip s) = lstrip s.
Proof.
  destruct (lstrip s) as [|a t] eqn:Hs; [done|].
  simpl. by rewrite (lstrip_head s t a Hs).
Qed.

Lemma rstrip_split (s : string) :
  ∃ w, s = rstrip s +:+ w ∧ all_whitespace (String.rev w) = true.
Proof.
  destruct (lstrip_split (String.rev s)) as (w & Hs & Hw).
  exists (String.rev w). rewrite rev_involutive. split; [|done].
  unfold rstrip. by rewrite <- rev_append, <- Hs, rev_involutive.
Qed.

Lemma rstrip_idem (s : string) : rstrip (rstrip s) = rstrip s.
Proof. unfold rstrip. by rewrite rev_involutive, lstrip_idem. Qed.

(** A trimmed string has nothing left to trim at either end. *)
Lemma strip_trimmed (s : string) :
  lstrip (strip s) = strip s ∧ rstrip (strip s) = strip s.
Proof.
  unfold strip. split; [|apply rstrip_idem].
  destruct (rstrip_split (lstrip s)) as (w & Hs & _).
  destruct (rstrip (lstrip s)) as [|a t] eqn:Hr; [done|].
  rewrite append_cons in Hs. simpl.
  by rewrite (lstrip_head s _ a Hs).
Qed.

Lemma strip_idem (s : string) : strip (strip s) = strip s.
Proof.
  destruct (strip_trimmed s) as [Hl Hr]. unfold strip at 1. by rewrite Hl, Hr.
Qed.

(** Substrings of a part are substrings of the whole. *)
Lemma prefix_app_l (sub a b : string) :
  String.prefix sub a = true → String.prefix sub (a +:+ b) = true.
Proof.
  revert sub. induction a as [|x a IH]; intros [|k sub]; try done.
  - intros _. by destruct b.
  - rewrite append_cons. simpl.
    destruct (ascii_dec k x); [apply IH|done].
Qed.

Lemma str_in_app_l (sub a b : string) :
  str_in sub a = true → str_in sub (a +:+ b) = true.
Proof.
  induction a as [|x a IH].
  - destruct sub as [|k sub]; [|intros H; cbn in H; discriminate H].
    intros _. change ("" +:+ b) with b. by destruct b.
  - rewrite append_cons. cbn [str_in].
    destruct (String.prefix sub (String x a)) eqn:Hp.
    + intros _. change (String x (a +:+ b)) with (String x a +:+ b).
      by rewrite (prefix_app_l _ _ b Hp).
    + intros H. rewrite (IH H).
      by destruct (String.prefix sub (String x (a +:+ b))).
Qed.

Lemma str_in_app_r (sub a b : string) :
  str_in sub b = true → str_in sub (a +:+ b) = true.
Proof.
  intros H. induction a as [|x a IH]; [done|].
  rewrite append_cons. cbn [str_in]. rewrite IH.
  by destruct (String.prefix _ _).
Qed.

(** A character that the key does not hold is a barrier: no occurrence
    of the key runs across it. *)
Lemma prefix_barrier (key a b : string) (c : ascii) :
  has_char c key = false →
  String.prefix key (a +:+ String c b) = String.prefix key a.
Proof.
  revert key. induction a as [|x a IH]; intros [|k key] Hc; try done.
  - simpl in *. apply orb_false_elim in Hc as [Hk _].
    destruct (ascii_dec k c) as [->|]; [|done]. by rewrite Ascii.eqb_refl in Hk.
  - rewrite append_cons. simpl in *. apply orb_false_elim in Hc as [_ Hc].
    destruct (ascii_dec k x); [by apply IH|done].
Qed.

Lemma str_in_barrier (key a b : string) (c : ascii) :
  key ≠ "" → has_char c key = false →
  str_in key (a +:+ String c b) = str_in key a || str_in key b.
Proof.
  intros Hne Hc. induction a as [|x a IH].
  - pose proof (prefix_barrier key "" b c Hc) as Hp.
    change ("" +:+ String c b) with (String c b) in *. cbn [str_in].
    rewrite Hp. by destruct key.
  - rewrite append_cons. cbn [str_in].
    change (String x (a +:+ String c b)) with (String x a +:+ String c b).
    rewrite (prefix_barrier key (String x a) b c Hc), IH.
    by destruct (String.prefix key (String x a)).
Qed.

(** * Further properties of the section parser *)

Lemma sections_of_lookup_Some (a : accumulator) (k s : string) :
  sections_of a !! k = Some s → ∃ sec, k = section_name sec ∧ s = acc_get a sec.
Proof.
  unfold sections_of. cbn [list_to_map foldr uncurry fst snd].
  rewrite !lookup_insert, lookup_empty.
  repeat case_decide; try done; intros [= <-]; subst k.
  - by exists NatureAndState.
  - by exists MarketNeedAndSize.
  - by exists RoiElements.
  - by exists ManagementTeamStrength.
Qed.

Lemma section_names_spec (k : string) :
  k ∈ section_names ↔ ∃ sec, k = section_name sec.
Proof.
  split.
  - intros Hk. apply list_elem_of_In in Hk. simpl in Hk.
    destruct Hk as [<-|[<-|[<-|[<-|[]]]]];
      [by exists NatureAndState | by exists MarketNeedAndSize
      | by exists RoiElements | by exists ManagementTeamStrength].
  - intros [sec ->]. apply list_elem_of_In. destruct sec; simpl; tauto.
Qed.

(** X7. On every input the parser returns a dict with exactly the four
    section names as keys; it never raises. *)
Theorem parse_returns_the_four_sections (report_text : string) :
  ∃ sections : gmap string string,
    _parse_report_sections report_text = Ok sections ∧
    (∀ k, is_Some (sections !! k) ↔ k ∈ section_names) ∧
    size sections = 4%nat.
Proof.
  eexists. split; [apply parse_report_sections_automaton|].
  unfold automaton_parse.
  set (a := trim_all _). split.
  - intros k. rewrite section_names_spec. split.
    + intros [s Hs]. apply sections_of_lookup_Some in Hs as (sec & -> & _).
      by exists sec.
    + intros [sec ->]. rewrite sections_of_lookup. by eexists.
  - by destruct a.
Qed.

(** X8. Every section the parser returns is trimmed: it neither begins
    nor ends with whitespace. *)
Theorem parsed_sections_are_trimmed (report_text : string)
    (sections : gmap string string) (k s : string) :
  _parse_report_sections report_text = Ok sections →
  sections !! k = Some s →
  lstrip s = s ∧ rstrip s = s ∧ strip s = s.
Proof.
  rewrite parse_report_sections_automaton. intros [= <-] Hs.
  unfold automaton_parse in Hs.
  apply sections_of_lookup_Some in Hs as (sec & -> & ->).
  set (a := (automaton_run _ _).2).
  assert (acc_get (trim_all a) sec = strip (acc_get a sec)) as ->
    by (by destruct sec).
  destruct (strip_trimmed (acc_get a sec)) as [Hl Hr].
  split; [done|]. split; [done|]. apply strip_idem.
Qed.

Lemma parsed_sections_are_trimmed_witness :
  lstrip "Growing fast" = "Growing fast" ∧
  rstrip "Growing fast" = "Growing fast" ∧
  strip "Growing fast" = "Growing fast".
Proof.
  apply (parsed_sections_are_trimmed sample_report
           (automaton_parse sample_report) "nature_and_state" "Growing fast").
  - apply parse_report_sections_automaton.
  - reflexivity.
Defined.

(** ** No stored text holds a trigger *)

Lemma any_key_false (mapping : list (string * string)) (text : string) :
  any_key mapping text = false
  ↔ Forall (λ kv : string * string, str_in kv.1 text = false) mapping.
Proof.
  unfold any_key. induction mapping as [|kv mapping IH]; simpl.
  - split; [constructor|done].
  - rewrite orb_false_iff, IH. split.
    + intros [H1 H2]. by constructor.
    + intros H. by inversion H.
Qed.

Lemma trigger_None_free (line : string) :
  trigger line = None ↔ free_of_triggers line.
Proof.
  unfold free_of_triggers. rewrite <- any_key_false, any_key_trigger.
  by destruct (trigger line).
Qed.

(** One more stored line keeps the text of a section free of a key that
    holds no newline. *)
Lemma str_in_stored_line (key text line : string) :
  key ≠ "" → has_char (ascii_of_nat 10) key = false →
  str_in key (lower text) = false →
  (text = "" ∨ ∃ text0, text = text0 +:+ newline) →
  str_in key (lower line) = false →
  str_in key (lower (text +:+ line +:+ newline)) = false.
Proof.
  intros Hne Hnl Htext Hend Hline.
  assert (Hempty : str_in key "" = false) by (by destruct key).
  rewrite <- append_assoc, lower_app.
  change (lower newline) with (String (ascii_of_nat 10) "").
  rewrite str_in_barrier, Hempty, orb_false_r by done.
  rewrite lower_app. destruct Hend as [->|[text0 ->]]; [done|].
  rewrite lower_app in Htext |- *.
  change (lower newline) with (String (ascii_of_nat 10) "") in *.
  rewrite str_in_barrier, Hempty, orb_false_r in Htext by done.
  rewrite append_assoc. change (String (ascii_of_nat 10) "" +:+ lower line)
    with (String (ascii_of_nat 10) (lower line)).
  rewrite str_in_barrier by done. by rewrite Htext, Hline.
Qed.

Lemma section_keys_plain :
  Forall (λ kv : string * string,
            kv.1 ≠ "" ∧ has_char (ascii_of_nat 10) kv.1 = false)
         section_mapping.
Proof. by repeat constructor. Qed.

Lemma tidy_stored_line (text line : string) :
  tidy text → trigger line = None → tidy (text +:+ line +:+ newline).
Proof.
  intros [Hfree Hend] Hline%trigger_None_free. split.
  - unfold free_of_triggers in *. rewrite Forall_forall in *.
    intros kv Hkv.
    destruct (proj1 (Forall_forall _ _) section_keys_plain kv Hkv) as [Hne Hnl].
    apply str_in_stored_line; auto.
  - right. exists (text +:+ line). apply eq_sym, append_assoc.
Qed.

Lemma acc_get_append (a : accumulator) (c s : section) (text : string) :
  acc_get (acc_append a c text) s
  = if decide (s = c) then acc_get a c +:+ text else acc_get a s.
Proof. by destruct c, s. Qed.

(** Every transition of the automaton keeps the four texts tidy. *)
Lemma automaton_step_tidy (st : option section * accumulator) (line : string) :
  (∀ s, tidy (acc_get st.2 s)) →
  ∀ s, tidy (acc_get (automaton_step st line).2 s).
Proof.
  intros Hst s. unfold automaton_step.
  destruct (trigger line) eqn:Ht; [done|].
  destruct st as [[cur|] a]; simpl in *; [|done].
  destruct (is_blank line); [done|]. simpl.
  rewrite acc_get_append. case_decide; [|done].
  by apply tidy_stored_line.
Qed.

Lemma automaton_run_tidy (lines : list string) :
  ∀ st : option section * accumulator,
    (∀ s, tidy (acc_get st.2 s)) →
    ∀ s, tidy (acc_get (automaton_run st lines).2 s).
Proof.
  unfold automaton_run.
  induction lines as [|line lines IH]; intros st Hst; [done|].
  simpl. apply IH. by apply automaton_step_tidy.
Qed.

(** Trimming removes no trigger that was not there. *)
Lemma free_of_triggers_strip (text : string) :
  free_of_triggers text → free_of_triggers (strip text).
Proof.
  unfold free_of_triggers. rewrite !Forall_forall.
  intros Hfree kv Hkv. specialize (Hfree kv Hkv).
  destruct (str_in kv.1 (lower (strip text))) eqn:Hin; [|done].
  destruct (lstrip_split text) as (w1 & H1 & _).
  destruct (rstrip_split (lstrip text)) as (w2 & H2 & _).
  rewrite H1, H2, !lower_app in Hfree. fold (strip text) in Hfree.
  rewrite str_in_app_r in Hfree; [done|]. by apply str_in_app_l.
Qed.

(** X9. No section the parser returns holds a trigger phrase, in any
    letter case: a line that mentions "nature and state", "market need",
    "roi" or "management" is never part of the parsed report. *)
Theorem parsed_sections_hold_no_trigger (report_text : string)
    (sections : gmap string string) (k s : string) :
  _parse_report_sections report_text = Ok sections →
  sections !! k = Some s →
  any_key section_mapping (lower s) = false.
Proof.
  rewrite parse_report_sections_automaton. intros [= <-] Hs.
  unfold automaton_parse in Hs.
  apply sections_of_lookup_Some in Hs as (sec & -> & ->).
  set (a := (automaton_run _ _).2).
  assert (acc_get (trim_all a) sec = strip (acc_get a sec)) as ->
    by (by destruct sec).
  apply any_key_false. apply free_of_triggers_strip.
  apply (automaton_run_tidy (split_lines report_text) (None, empty_accumulator)).
  intros s. split; [|left; by destruct s].
  destruct s; by repeat constructor.
Qed.

Lemma parsed_sections_hold_no_trigger_witness :
  any_key section_mapping (lower "Growing fast") = false.
Proof.
  apply (parsed_sections_hold_no_trigger sample_report
           (automaton_parse sample_report) "nature_and_state" "Growing fast").
  - apply parse_report_sections_automaton.
  - reflexivity.
Defined.

(** ** Lines that leave no trace *)

Lemma split_lines_cons (s : string) : ∃ l ls, split_lines s = l :: ls.
Proof.
  induction s as [|a s (l & ls & IH)]; [by eexists _, _|].
  simpl. rewrite IH. destruct (Ascii.eqb a _); by eexists _, _.
Qed.

(** Splitting at a newline: the lines before it, then the lines after. *)
Lemma split_lines_newline (s t : string) :
  split_lines (s +:+ newline +:+ t) = (split_lines s ++ split_lines t)%list.
Proof.
  induction s as [|a s IH]; [done|].
  rewrite append_cons. cbn [split_lines]. rewrite IH.
  destruct (Ascii.eqb a _); [done|].
  by destruct (split_lines_cons s) as (l & ls & ->).
Qed.

Lemma parse_lines_app (st : option string * gmap string string)
    (l1 l2 : list string) :
  parse_lines st (l1 ++ l2)%list = st' ← parse_lines st l1; parse_lines st' l2.
Proof. apply for_each_app. Qed.

(** X10. Whatever precedes the first header is discarded: a preamble
    whose lines hold no trigger can be removed from the report without
    changing what the parser returns. *)
Theorem parse_discards_preamble (preamble rest : string) :
  Forall (λ l, any_key section_mapping (lower l) = false) (split_lines preamble) →
  _parse_report_sections (preamble +:+ newline +:+ rest)
  = _parse_report_sections rest.
Proof.
  intros Hpre. unfold _parse_report_sections.
  rewrite split_lines_newline, parse_lines_app.
  by rewrite parse_lines_no_header.
Qed.

Lemma parse_discards_preamble_witness :
  _parse_report_sections ("Dear investor," +:+ newline +:+ sample_report)
  = _parse_report_sections sample_report.
Proof.
  apply (parse_discards_preamble "Dear investor," sample_report).
  repeat constructor.
Defined.

(** Whitespace is not touched by [lower], and a line of whitespace holds
    no trigger. *)
Lemma lower_char_whitespace (a : ascii) :
  is_whitespace a = true → lower_char a = a ∧ is_whitespace (lower_char a) = true.
Proof. destruct a as [[] [] [] [] [] [] [] []]; by vm_compute. Qed.

Lemma all_whitespace_app (s t : string) :
  all_whitespace (s +:+ t) = all_whitespace s && all_whitespace t.
Proof.
  induction s as [|a s IH]; [done|].
  rewrite append_cons. simpl. by rewrite IH, andb_assoc.
Qed.

Lemma all_whitespace_rev (s : string) :
  all_whitespace (String.rev s) = all_whitespace s.
Proof.
  induction s as [|a s IH]; [done|].
  rewrite rev_cons, all_whitespace_app, IH. simpl.
  by rewrite andb_true_r, andb_comm.
Qed.

Lemma blank_all_whitespace (line : string) :
  is_blank line = true → all_whitespace line = true.
Proof.
  unfold is_blank. intros Hb%String.eqb_eq.
  destruct (lstrip_split line) as (w1 & H1 & Hw1).
  destruct (rstrip_split (lstrip line)) as (w2 & H2 & Hw2).
  fold (strip line) in H2. rewrite Hb in H2.
  change ("" +:+ w2) with w2 in H2.
  rewrite H1, H2, all_whitespace_app, Hw1.
  by rewrite all_whitespace_rev in Hw2.
Qed.

Lemma whitespace_holds_no_key (key line : string) (k : ascii) :
  is_whitespace k = false → all_whitespace line = true →
  str_in (String k key) (lower line) = false.
Proof.
  intros Hk. induction line as [|a line IH]; [done|].
  simpl. intros [Ha Hline]%andb_prop.
  destruct (lower_char_whitespace a Ha) as [-> _].
  destruct (ascii_dec k a) as [->|_]; [congruence|]. by apply IH.
Qed.

Lemma blank_no_trigger (line : string) :
  is_blank line = true → trigger line = None.
Proof.
  intros Hb%blank_all_whitespace. apply trigger_None_free.
  unfold free_of_triggers. repeat constructor; simpl;
    by apply whitespace_holds_no_key.
Qed.

(** X11. A line of whitespace only leaves no trace: removing it from the
    report does not change what the parser returns. *)
Theorem parse_ignores_blank_lines (before blank after : string) :
  is_blank blank = true →
  has_char (ascii_of_nat 10) blank = false →
  _parse_report_sections (before +:+ newline +:+ blank +:+ newline +:+ after)
  = _parse_report_sections (before +:+ newline +:+ after).
Proof.
  intros Hb Hnl. unfold _parse_report_sections.
  assert (split_lines blank = [blank]) as Hone.
  { clear Hb. induction blank as [|a blank IH]; [done|].
    simpl in *. apply orb_false_elim in Hnl as [-> Hnl]. by rewrite (IH Hnl). }
  rewrite !split_lines_newline, Hone, !parse_lines_app.
  destruct (parse_lines _ (split_lines before)) as [[cur secs]|e]; [|done].
  cbn [mbind result_bind]. unfold parse_lines.
  change ([blank] ++ split_lines after)%list with (blank :: split_lines after).
  rewrite (for_each_cons_ok _ _ (cur, secs)); [done|].
  apply parse_line_skip; [by apply blank_no_trigger | by right].
Qed.

Lemma parse_ignores_blank_lines_witness :
  _parse_report_sections ("ROI" +:+ newline +:+ "   " +:+ newline +:+ "High return")
  = _parse_report_sections ("ROI" +:+ newline +:+ "High return").
Proof.
  apply (parse_ignores_blank_lines "ROI" "   " "High return"); reflexivity.
Defined.

(** * Upload screening: [allowed_file] *)

Lemma str_in_char (c : ascii) (s : string) :
  str_in (String c "") s = has_char c s.
Proof.
  induction s as [|a s IH]; [done|].
  cbn [str_in has_char]. rewrite IH. simpl.
  destruct (ascii_dec c a) as [->|Hne].
  - rewrite Ascii.eqb_refl. by destruct s.
  - destruct (Ascii.eqb a c) eqn:E; [|done].
    apply Ascii.eqb_eq in E. congruence.
Qed.

Lemma rsplit_last_None (c : ascii) (s : string) :
  rsplit_last c s = None ↔ has_char c s = false.
Proof.
  induction s as [|a s IH]; [done|]. simpl.
  destruct (rsplit_last c s) as [[h t]|].
  - split; [done|]. intros [_ H]%orb_false_elim. by apply IH in H.
  - destruct IH as [IH _]. rewrite (IH eq_refl), orb_false_r.
    by destruct (Ascii.eqb a c).
Qed.

(** The split is at the last separator. *)
Lemma rsplit_last_sound (c : ascii) (s h t : string) :
  rsplit_last c s = Some (h, t) → s = h +:+ String c t ∧ has_char c t = false.
Proof.
  revert h. induction s as [|a s IH]; intros h; [done|]. simpl.
  destruct (rsplit_last c s) as [[h' t']|] eqn:Hs.
  - intros [= <- <-]. destruct (IH h' eq_refl) as [-> Ht].
    by rewrite append_cons.
  - apply rsplit_last_None in Hs.
    destruct (Ascii.eqb a c) eqn:E; [|done].
    apply Ascii.eqb_eq in E as ->. by intros [= <- <-].
Qed.

Lemma rsplit_last_complete (c : ascii) (h t : string) :
  has_char c t = false → rsplit_last c (h +:+ String c t) = Some (h, t).
Proof.
  intros Ht. induction h as [|x h IH].
  - change ("" +:+ String c t) with (String c t). simpl.
    apply rsplit_last_None in Ht. by rewrite Ht, Ascii.eqb_refl.
  - rewrite append_cons. simpl. by rewrite IH.
Qed.

Lemma rsplit_last_Some (c : ascii) (s h t : string) :
  rsplit_last c s = Some (h, t)
  ↔ s = h +:+ String c t ∧ has_char c t = false.
Proof.
  split; [apply rsplit_last_sound|].
  intros [-> Ht]. by apply rsplit_last_complete.
Qed.

(** X12. [allowed_file] never raises, and it accepts a file name exactly
    when the text after its last dot is "pdf" in any letter case: a name
    without a dot is rejected, and so is a name in which "pdf" is not
    the last extension. *)
Theorem allowed_file_spec (filename : string) :
  (∃ b, allowed_file filename = Some b) ∧
  (allowed_file filename = Some true
   ↔ ∃ stem ext, filename = stem +:+ "." +:+ ext ∧
                 has_char "."%char ext = false ∧ lower ext = "pdf").
Proof.
  unfold allowed_file, rsplit1. rewrite (str_in_char "."%char).
  destruct (rsplit_last "."%char filename) as [[h t]|] eqn:Hs.
  - pose proof Hs as [-> Ht]%rsplit_last_Some.
    assert (has_char "."%char (h +:+ String "."%char t) = true) as ->.
    { clear Hs. induction h as [|x h IH]; [done|].
      rewrite append_cons. simpl. by rewrite IH, orb_true_r. }
    simpl. split; [by eexists|].
    unfold ALLOWED_EXTENSIONS. split.
    + intros [= Hb]. apply bool_decide_eq_true in Hb.
      apply elem_of_singleton in Hb. by exists h, t.
    + intros (stem & ext & Heq & Hext & Hpdf).
      assert (rsplit_last "."%char (h +:+ String "."%char t) = Some (stem, ext))
        as Hs' by (by apply rsplit_last_Some).
      rewrite Hs in Hs'. injection Hs' as -> ->.
      f_equal. apply bool_decide_eq_true. by apply elem_of_singleton.
  - apply rsplit_last_None in Hs. rewrite Hs. split; [by eexists|].
    split; [done|]. intros (stem & ext & -> & _ & _). exfalso.
    clear -Hs. induction stem as [|x stem IH]; [done|].
    rewrite append_cons in Hs. simpl in Hs.
    apply orb_false_elim in Hs as [_ Hs]. by apply IH.
Qed.

(** The extension alone decides: every stem with ".pdf" or ".PDF" passes,
    and a further extension after "pdf" is refused. *)
Example allowed_file_examples :
  allowed_file "summary.pdf" = Some true ∧
  allowed_file "Summary.v2.PDF" = Some true ∧
  allowed_file "summary.pdf.exe" = Some false ∧
  allowed_file "pdf" = Some false ∧
  allowed_file "summary." = Some false.
Proof. by vm_compute. Qed.

(** * Text extraction: [PDFProcessor.extract_text] *)

(** Once pdfplumber raised, the rest of its run plays no role. *)
Lemma plumber_text_failure (text : string) (run rest : list page_event) :
  Forall (λ ev, is_page_text ev = true) run →
  plumber_text text (run ++ PageFailure :: rest)%list = plumber_text text run.
Proof.
  intros Hrun. revert text.
  induction Hrun as [|ev run Hev _ IH]; intros text; [done|].
  destruct ev as [[t|]|]; try done; simpl; [|apply IH].
  destruct (negb _); apply IH.
Qed.

(** X13. An exception of pdfplumber does not fail the extraction: the
    pages read before it are kept and the outcome is the one of a run
    that ended there, whatever pages would have followed. *)
Theorem extract_text_keeps_pages_before_failure (run rest pypdf2 : list page_event) :
  Forall (λ ev, is_page_text ev = true) run →
  extract_text (run ++ PageFailure :: rest)%list pypdf2 = extract_text run pypdf2.
Proof.
  intros Hrun. unfold extract_text. by rewrite plumber_text_failure.
Qed.

Lemma extract_text_keeps_pages_before_failure_witness :
  extract_text [PageText (Some "Acme Corp"); PageFailure; PageText (Some "lost")] []
  = extract_text [PageText (Some "Acme Corp")] [].
Proof.
  apply (extract_text_keeps_pages_before_failure
           [PageText (Some "Acme Corp")] [PageText (Some "lost")] []).
  repeat constructor.
Defined.

(** X14. When the pages pdfplumber read hold visible text, PyPDF2 is not
    consulted: the extraction returns, for every run of PyPDF2, the same
    non-empty text without whitespace at either end, and it does not
    raise. *)
Theorem extract_text_prefers_pdfplumber (plumber pypdf2 : list page_event) :
  strip (plumber_text "" plumber) ≠ "" →
  ∃ text, extract_text plumber pypdf2 = Some text ∧
          text = strip (plumber_text "" plumber) ∧
          text ≠ "" ∧ lstrip text = text ∧ rstrip text = text.
Proof.
  intros Hvisible. unfold extract_text.
  destruct (String.eqb_spec (strip (plumber_text "" plumber)) "") as [?|_]; [done|].
  eexists. split; [reflexivity|]. split; [done|]. split; [done|].
  apply strip_trimmed.
Qed.

Lemma extract_text_prefers_pdfplumber_witness :
  ∃ text, extract_text [PageText (Some " Acme Corp ")] [PageFailure] = Some text ∧
          text = strip (plumber_text "" [PageText (Some " Acme Corp ")]) ∧
          text ≠ "" ∧ lstrip text = text ∧ rstrip text = text.
Proof.
  apply (extract_text_prefers_pdfplumber [PageText (Some " Acme Corp ")] [PageFailure]).
  vm_compute. discriminate.
Defined.

(** X15. The extraction raises exactly when pdfplumber found no visible
    text and the run of PyPDF2 met an exception or a page without text
    object; a text that is returned is trimmed, and it may be empty. *)
Theorem extract_text_raises_iff (plumber pypdf2 : list page_event) :
  (extract_text plumber pypdf2 = None
   ↔ strip (plumber_text "" plumber) = "" ∧
     Exists (λ ev, ev = PageFailure ∨ ev = PageText None) pypdf2) ∧
  (∀ text, extract_text plumber pypdf2 = Some text →
           lstrip text = text ∧ rstrip text = text).
Proof.
  unfold extract_text.
  assert (Hrun : ∀ text, pypdf2_text text pypdf2 = None
            ↔ Exists (λ ev, ev = PageFailure ∨ ev = PageText None) pypdf2).
  { induction pypdf2 as [|ev run IH]; intros text.
    - split; [done|]. by intros H%Exists_nil.
    - rewrite Exists_cons. destruct ev as [[t|]|]; simpl.
      + rewrite IH. split; [by right|]. by intros [[|]|].
      + split; [by left; right | done].
      + split; [by left; left | done]. }
  destruct (String.eqb_spec (strip (plumber_text "" plumber)) "") as [Hb|Hb].
  - split.
    + rewrite <- (Hrun (plumber_text "" plumber)).
      destruct (pypdf2_text _ pypdf2); simpl; split; try done.
      by intros [_ ?].
    + intros text. destruct (pypdf2_text _ pypdf2); simpl; [|done].
      intros [= <-]. apply strip_trimmed.
  - split; [split; [done | by intros [? _]]|].
    intros text [= <-]. apply strip_trimmed.
Qed.

(** * Further properties of the orchestrator *)

Lemma analyze_raises_iff_report_call_raises_witness :
  (∃ info s1,
     extract_information third_call_fails_env "summary" first_call = (Ok info, s1) ∧
     ((∃ e, (analyze third_call_fails_env "summary" first_call).1 = Raise e)
      ↔ (∃ e, (llm_invoke third_call_fails_env
                 (report_messages third_call_fails_env info) (world s1)).1
              = Raise e))) ∧
  (analyze third_call_fails_env "summary" first_call).1
  = Raise (ExternalError "timeout").
Proof.
  split; [|reflexivity].
  apply (analyze_raises_iff_report_call_raises third_call_fails_env "summary"
           first_call).
  intros chunk w response w' v. simpl.
  destruct (w <? 2)%nat; [|discriminate].
  intros [= <- _]. simpl. intros [= <-]. reflexivity.
Defined.

Section OrchestratorDegradation.
Context {World : Type} (env : Collaborators World).

(** A chunk whose call raises, or whose response does not decode, adds
    nothing and raises nothing. *)
Lemma extract_chunk_unusable (all_extractions : list pyval) (chunk : string)
    (s : state World) :
  (∀ messages w response w',
     llm_invoke env messages w = (Ok response, w') →
     ∃ e, json_loads env response = Raise e) →
  (extract_chunk env all_extractions chunk s).1 = Ok all_extractions.
Proof.
  intros Hbad.
  destruct (llm_invoke env (extraction_messages env chunk) (world s))
    as [[response|e] w] eqn:Hcall.
  - destruct (Hbad _ _ _ _ Hcall) as [e He].
    by eapply extract_chunk_decode_failure.
  - by eapply extract_chunk_call_failure.
Qed.

Lemma extract_chunks_unusable (chunks : list string) :
  (∀ messages w response w',
     llm_invoke env messages w = (Ok response, w') →
     ∃ e, json_loads env response = Raise e) →
  ∀ s, (for_each_M (extract_chunk env) [] chunks s).1 = Ok [].
Proof.
  intros Hbad. induction chunks as [|chunk chunks IH]; intros s; [done|].
  cbn [for_each_M]. unfold mbind, M_bind.
  pose proof (extract_chunk_unusable [] chunk s Hbad) as Hchunk.
  destruct (extract_chunk env [] chunk s) as [r s1]. simpl in Hchunk. subst r.
  apply IH.
Qed.

(** X17. Total extraction failure is not an error: when no chunk yields
    a usable result (every call raises or returns a text that does not
    decode), [extract_information] returns the ExtractedInformation with
    every field [None] and an empty confidence map. *)
Theorem extraction_failure_degrades_to_blank (text : string) (s : state World) :
  (∀ messages w response w',
     llm_invoke env messages w = (Ok response, w') →
     ∃ e, json_loads env response = Raise e) →
  ∃ now, (extract_information env text s).1 = Ok (blank_information now).
Proof.
  intros Hbad. unfold extract_information, mbind, M_bind.
  pose proof (extract_chunks_unusable (take 3 (split_text env text)) Hbad s) as H.
  destruct (for_each_M (extract_chunk env) [] (take 3 (split_text env text)) s)
    as [r s1].
  simpl in H. subst r. by eexists.
Qed.

(** The extraction step issues one call per chunk of [chunks[:3]]. *)
Lemma extract_information_calls (text : string) (s : state World) :
  calls (extract_information env text s).2
  = (calls s ++ (extraction_messages env <$> take 3 (split_text env text)))%list.
Proof.
  unfold extract_information, mbind, M_bind.
  destruct (extract_chunks_calls env (take 3 (split_text env text)) [] s)
    as [[all' Hok] Hcalls].
  destruct (for_each_M (extract_chunk env) [] (take 3 (split_text env text)) s)
    as [r s1].
  simpl in Hok, Hcalls. subst r. rewrite <- Hcalls.
  unfold lift, read_clock.
  destruct (_merge_extractions all') as [merged_info|e]; [|done].
  by destruct (new_ExtractedInformation merged_info _).
Qed.

(** The report step issues one call, whatever comes of it. *)
Lemma generate_report_calls (info : ExtractedInformation) (s : state World) :
  calls (generate_report env info s).2
  = (calls s ++ [report_messages env info])%list.
Proof.
  unfold generate_report, try_except, invoke, lift, raise, mbind, M_bind,
    mret, M_ret.
  destruct (llm_invoke env (report_messages env info) (world s))
    as [[response|e] w]; simpl; [|done].
  by destruct (_parse_report_sections response).
Qed.

(** X18. A request calls the language model for the first three chunks
    at most and then, only if the extraction returned, once for the
    report: never more than four calls, the report call last. *)
Theorem analyze_calls (text : string) (s : state World) :
  calls (analyze env text s).2
  = (calls s
     ++ (extraction_messages env <$> take 3 (split_text env text))
     ++ match (extract_information env text s).1 with
        | Ok info => [report_messages env info]
        | Raise _ => []
        end)%list ∧
  (length (calls (analyze env text s).2) ≤ length (calls s) + 4)%nat.
Proof.
  assert (Hcalls : calls (analyze env text s).2
    = (calls s
       ++ (extraction_messages env <$> take 3 (split_text env text))
       ++ match (extract_information env text s).1 with
          | Ok info => [report_messages env info]
          | Raise _ => []
          end)%list).
  { pose proof (extract_information_calls text s) as Hext.
    unfold analyze, mbind, M_bind.
    destruct (extract_information env text s) as [[info|e] s1]; simpl in *.
    - pose proof (generate_report_calls info s1) as Hrep.
      destruct (generate_report env info s1) as [[report|e] s2]; simpl in *;
        by rewrite Hrep, Hext, <- app_assoc.
    - by rewrite Hext, app_nil_r. }
  split; [done|]. rewrite Hcalls, !length_app, length_fmap, length_take.
  destruct (extract_information env text s).1; cbn [length]; lia.
Qed.

End OrchestratorDegradation.

Lemma extraction_failure_degrades_to_blank_witness :
  ∃ now, (extract_information failing_llm_env "summary" initial_state).1
         = Ok (blank_information now).
Proof.
  apply (extraction_failure_degrades_to_blank failing_llm_env "summary"
           initial_state).
  intros messages w response w' H. discriminate H.
Defined.

(** What the automaton returns for a key: the trimmed text of a section
    that the loop kept tidy. *)
Lemma automaton_parse_lookup (report_text k s : string) :
  automaton_parse report_text !! k = Some s →
  ∃ text, s = strip text ∧ tidy text.
Proof.
  unfold automaton_parse. intros Hs.
  apply sections_of_lookup_Some in Hs as (sec & -> & ->).
  set (a := (automaton_run _ _).2).
  exists (acc_get a sec). split; [by destruct sec|].
  apply (automaton_run_tidy (split_lines report_text) (None, empty_accumulator)).
  intros s. split; [|left; by destruct s].
  destruct s; by repeat constructor.
Qed.

Section ReportFacts.
Context {World : Type} (env : Collaborators World).

(** X19. The four sections of a Report that [generate_report] returns
    are trimmed and hold no trigger phrase in any letter case: whatever
    the model wrote, a sentence that mentions "management", "roi",
    "market need" or "nature and state" is not in the report. *)
Theorem generated_report_sections_clean (info : ExtractedInformation)
    (s : state World) (report : Report) :
  (generate_report env info s).1 = Ok report →
  Forall (λ text, strip text = text ∧
                  any_key section_mapping (lower text) = false)
         [ nature_and_state report; market_need_and_size report;
           roi_elements report; management_team_strength report ].
Proof.
  unfold generate_report, try_except, invoke, lift, raise, mbind, M_bind,
    mret, M_ret.
  destruct (llm_invoke env (report_messages env info) (world s))
    as [[response|e] w]; simpl; [|done].
  rewrite parse_report_sections_automaton. simpl. intros [= <-].
  assert (Hclean : ∀ k,
            strip (default "" (automaton_parse response !! k))
            = default "" (automaton_parse response !! k) ∧
            any_key section_mapping
                    (lower (default "" (automaton_parse response !! k))) = false).
  { intros k.
    destruct (automaton_parse response !! k) as [t|] eqn:Hk;
      [|split; reflexivity].
    apply automaton_parse_lookup in Hk as (text & -> & [Hfree _]).
    cbn [default]. split; [apply strip_idem|].
    by apply any_key_false, free_of_triggers_strip. }
  unfold new_Report. cbn [nature_and_state market_need_and_size roi_elements
                          management_team_strength].
  repeat constructor; apply Hclean.
Qed.

End ReportFacts.

Lemma generated_report_sections_clean_witness :
  ∃ report,
    (generate_report empty_object_env (blank_information "now") initial_state).1
    = Ok report ∧
    Forall (λ text, strip text = text ∧
                    any_key section_mapping (lower text) = false)
           [ nature_and_state report; market_need_and_size report;
             roi_elements report; management_team_strength report ].
Proof.
  eexists. split; [reflexivity|].
  apply (generated_report_sections_clean empty_object_env
           (blank_information "now") initial_state).
  reflexivity.
Defined.
